(** * Ember mug telemetry: decoders, registry, snapshot assembly, poll loop

    A shallow embedding of [mug.py].  Byte buffers are [list byte], Python
    integers are [Z], Python floats are IEEE-754 binary64 values
    ([PrimFloat.float]), raised exceptions are the [Err] branch of
    [result].  Attribute names are kept; where two classes share one
    ([Mug.name] and [MugName.name], [Mug.current_temp] and
    [CurrentTemp.temp]) the inner one carries its class: [name_str],
    [current_temp_temp], [target_temp_temp]. *)

From Stdlib Require Import ZArith List String Ascii Bool Lia PrimFloat Uint63.
From Stdlib Require Import Strings.Byte.
From Stdlib Require Import Floats.SpecFloat Floats.FloatOps.
Import ListNotations.

Local Open Scope Z_scope.

(** ** Exceptions and the error monad *)

Inductive exn : Type :=
| StructError          (* struct.error: buffer of the wrong size *)
| ValueError           (* not a valid member of an enum *)
| IndexError           (* bytearray index out of range *)
| UnicodeDecodeError   (* byte outside the ascii codec *)
| KeyError             (* name missing in the registry *)
| TypeError            (* wrong arguments to a constructor *)
| BleakError.          (* the transport failed to read *)

Inductive result (A : Type) : Type :=
| Ok (a : A)
| Err (e : exn).
Arguments Ok {A} a.
Arguments Err {A} e.

Definition bind {A B} (r : result A) (k : A -> result B) : result B :=
  match r with
  | Ok a => k a
  | Err e => Err e
  end.

Notation "x <- r ;; k" := (bind r (fun x => k))
  (at level 61, r at next level, right associativity).

(** ** Byte buffers *)

Definition bytearray := list byte.

Definition int_of_byte (b : byte) : Z := Z.of_N (Byte.to_N b).

(** [data[i]] for a non-negative index. *)
Definition getitem (data : bytearray) (i : nat) : result Z :=
  match nth_error data i with
  | Some b => Ok (int_of_byte b)
  | None => Err IndexError
  end.

(** ** Floats *)

(** Conversion of a Python int to a float, exact below 2^53. *)
Definition float_of_int (z : Z) : float :=
  if z <? 0 then PrimFloat.opp (PrimFloat.of_uint63 (Uint63.of_Z (- z)))
  else PrimFloat.of_uint63 (Uint63.of_Z z).

(** The literals 0.01, 1.8 and 32 as binary64 values. *)
Definition f0_01 : float := 0x1.47ae147ae147bp-7%float.
Definition f1_8 : float := 0x1.ccccccccccccdp+0%float.
Definition f32 : float := float_of_int 32.

(** ** Temperature codec *)

Record Temp : Type := mkTemp { c : float; f : float }.

Definition c_to_f (c : float) : float :=
  PrimFloat.add (PrimFloat.mul c f1_8) f32.

(** [struct.unpack("<h", data)[0]]: a signed little-endian 16-bit integer
    from a buffer of exactly two bytes. *)
Definition read_uint16 (data : bytearray) : result Z :=
  match data with
  | [b0; b1] =>
      let u := int_of_byte b0 + 256 * int_of_byte b1 in
      Ok (if u <? 32768 then u else u - 65536)
  | _ => Err StructError
  end.

Definition read_temp (data : bytearray) : result Temp :=
  r <- read_uint16 data ;;
  let c := PrimFloat.mul (float_of_int r) f0_01 in
  Ok (mkTemp c (c_to_f c)).

(** ** The remaining payload classes and their decoders *)

Record CurrentTemp : Type := mkCurrentTemp { current_temp_temp : Temp }.

Definition decode_current_temp (data : bytearray) : result CurrentTemp :=
  t <- read_temp data ;; Ok (mkCurrentTemp t).

Record LiquidLevel : Type := mkLiquidLevel { level : Z }.

Definition decode_liquid_level (data : bytearray) : result LiquidLevel :=
  b0 <- getitem data 0 ;; Ok (mkLiquidLevel b0).

Record Battery : Type := mkBattery { percent : Z; charging : bool }.

(** [bool(n)] of a Python int. *)
Definition bool_of_int (n : Z) : bool := negb (n =? 0).

Definition decode_battery (data : bytearray) : result Battery :=
  b0 <- getitem data 0 ;;
  b1 <- getitem data 1 ;;
  Ok (mkBattery b0 (bool_of_int b1)).

Inductive LiquidState : Type :=
| Empty | Filling | Unknown | Cooling | Heating | Stable.

Definition LiquidState_value (s : LiquidState) : Z :=
  match s with
  | Empty => 1 | Filling => 2 | Unknown => 3
  | Cooling => 4 | Heating => 5 | Stable => 6
  end.

Definition LiquidState_name (s : LiquidState) : string :=
  match s with
  | Empty => "Empty" | Filling => "Filling" | Unknown => "Unknown"
  | Cooling => "Cooling" | Heating => "Heating" | Stable => "Stable"
  end.

(** [LiquidState(n)]: member lookup by value. *)
Definition LiquidState_of_int (n : Z) : result LiquidState :=
  match n with
  | 1 => Ok Empty | 2 => Ok Filling | 3 => Ok Unknown
  | 4 => Ok Cooling | 5 => Ok Heating | 6 => Ok Stable
  | _ => Err ValueError
  end.

Definition decode_liquid_state (data : bytearray) : result LiquidState :=
  b0 <- getitem data 0 ;; LiquidState_of_int b0.

Record MugColor : Type := mkMugColor { r : Z; g : Z; b : Z; a : Z }.

Definition decode_mug_color (data : bytearray) : result MugColor :=
  b0 <- getitem data 0 ;;
  b1 <- getitem data 1 ;;
  b2 <- getitem data 2 ;;
  b3 <- getitem data 3 ;;
  Ok (mkMugColor b0 b1 b2 b3).

Record MugName : Type := mkMugName { name_str : string }.

(** [data.decode("ascii")]: every byte must be below 128. *)
Fixpoint decode_ascii (data : bytearray) : result string :=
  match data with
  | [] => Ok EmptyString
  | b :: rest =>
      if int_of_byte b <? 128
      then s <- decode_ascii rest ;; Ok (String (ascii_of_byte b) s)
      else Err UnicodeDecodeError
  end.

Definition decode_mug_name (data : bytearray) : result MugName :=
  s <- decode_ascii data ;; Ok (mkMugName s).

Record TargetTemp : Type := mkTargetTemp { target_temp_temp : Temp }.

Definition decode_target_temp (data : bytearray) : result TargetTemp :=
  t <- read_temp data ;; Ok (mkTargetTemp t).

Inductive TempUnit : Type := C | F.

Definition TempUnit_value (u : TempUnit) : Z :=
  match u with C => 0 | F => 1 end.

(** [TempUnit(n)]: member lookup by value. *)
Definition TempUnit_of_int (n : Z) : result TempUnit :=
  match n with
  | 0 => Ok C
  | 1 => Ok F
  | _ => Err ValueError
  end.

Definition decode_temp_unit (data : bytearray) : result TempUnit :=
  b0 <- getitem data 0 ;; TempUnit_of_int b0.

(** Equality of enum members is equality of their integer values. *)
Definition TempUnit_eqb (u v : TempUnit) : bool :=
  TempUnit_value u =? TempUnit_value v.

Definition LiquidState_eqb (s t : LiquidState) : bool :=
  LiquidState_value s =? LiquidState_value t.

Definition temp_str (temp : Temp) (unit : TempUnit) : float * string :=
  if TempUnit_eqb unit C then (c temp, "C"%string) else (f temp, "F"%string).

(** ** Characteristic registry *)

(** What a decoder of the registry returns: an object of one of the
    payload classes. *)
Inductive Value : Type :=
| VMugName (v : MugName)
| VCurrentTemp (v : CurrentTemp)
| VTargetTemp (v : TargetTemp)
| VTempUnit (v : TempUnit)
| VLiquidLevel (v : LiquidLevel)
| VBattery (v : Battery)
| VLiquidState (v : LiquidState)
| VMugColor (v : MugColor).

Definition Decoder := bytearray -> result Value.

Definition lift {A} (dec : bytearray -> result A) (inj : A -> Value) : Decoder :=
  fun data => v <- dec data ;; Ok (inj v).

(** The dict literal, in insertion order. *)
Definition CHARACTERISTICS : list (string * (string * Decoder)) :=
  [ ("mug-name",
      ("fc540001-236c-4c94-8fa9-944a3e5353fa", lift decode_mug_name VMugName));
    ("current-temp",
      ("fc540002-236c-4c94-8fa9-944a3e5353fa", lift decode_current_temp VCurrentTemp));
    ("target-temp",
      ("fc540003-236c-4c94-8fa9-944a3e5353fa", lift decode_target_temp VTargetTemp));
    ("temp-unit",
      ("fc540004-236c-4c94-8fa9-944a3e5353fa", lift decode_temp_unit VTempUnit));
    ("liquid-level",
      ("fc540005-236c-4c94-8fa9-944a3e5353fa", lift decode_liquid_level VLiquidLevel));
    ("battery",
      ("fc540007-236c-4c94-8fa9-944a3e5353fa", lift decode_battery VBattery));
    ("liquid-state",
      ("fc540008-236c-4c94-8fa9-944a3e5353fa", lift decode_liquid_state VLiquidState));
    ("mug-color",
      ("fc540014-236c-4c94-8fa9-944a3e5353fa", lift decode_mug_color VMugColor))
  ]%string.

(** [d[k]] on a dict given as its item list. *)
Fixpoint dict_get {V} (d : list (string * V)) (k : string) : result V :=
  match d with
  | [] => Err KeyError
  | (k', v) :: rest => if String.eqb k k' then Ok v else dict_get rest k
  end.

Definition get_uuid (char : string) : result string :=
  e <- dict_get CHARACTERISTICS char ;; Ok (fst e).

(** ** Snapshot assembly *)

(** The connected client, for the duration of one [get_mug]: what
    [read_gatt_char] answers for each identifier. *)
Record BleakClient : Type :=
  { read_gatt_char : string -> result bytearray }.

Definition read_char (client : BleakClient) (k : string) : result Value :=
  e <- dict_get CHARACTERISTICS k ;;
  let '(uuid, decoder) := e in
  data <- read_gatt_char client uuid ;;
  decoder data.

(** [asyncio.gather] over tasks whose outcomes are [tasks], finishing in
    the order [completion] (positions in [tasks]): the first task seen to
    raise makes the gather raise that exception; when none raises, the
    results come back in the order of the arguments.  A task that raised
    but is absent from [completion] is met when the results are collected. *)
Fixpoint first_raised {A} (completion : list nat) (tasks : list (result A))
  : option exn :=
  match completion with
  | [] => None
  | i :: rest =>
      match nth_error tasks i with
      | Some (Err e) => Some e
      | _ => first_raised rest tasks
      end
  end.

Fixpoint results {A} (tasks : list (result A)) : result (list A) :=
  match tasks with
  | [] => Ok []
  | t :: rest => x <- t ;; xs <- results rest ;; Ok (x :: xs)
  end.

Definition gather {A} (completion : list nat) (tasks : list (result A))
  : result (list A) :=
  match first_raised completion tasks with
  | Some e => Err e
  | None => results tasks
  end.

Record Mug : Type := mkMug
  { name : MugName;
    current_temp : CurrentTemp;
    target_temp : TargetTemp;
    temp_unit : TempUnit;
    liquid_level : LiquidLevel;
    battery : Battery;
    liquid_state : LiquidState;
    color : MugColor }.

(** [Mug] applied to the unpacked [attrs]: the positional arguments fill
    the fields in declaration order; any other number of arguments is a
    TypeError.  The registry fixes the class of the object at each position
    ([Mug_of_attrs_registry] below), so the last branch is not reached from
    [get_mug]. *)
Definition Mug_of_attrs (attrs : list Value) : result Mug :=
  match attrs with
  | [VMugName n; VCurrentTemp cur; VTargetTemp tgt; VTempUnit u;
     VLiquidLevel l; VBattery bt; VLiquidState s; VMugColor col] =>
      Ok (mkMug n cur tgt u l bt s col)
  | _ => Err TypeError
  end.

Definition mug_keys : list string :=
  [ "mug-name"; "current-temp"; "target-temp"; "temp-unit";
    "liquid-level"; "battery"; "liquid-state"; "mug-color" ]%string.

Definition get_mug (client : BleakClient) (completion : list nat) : result Mug :=
  attrs <- gather completion (map (read_char client) mug_keys) ;;
  Mug_of_attrs attrs.

(** ** Poll loop *)

Inductive Task : Type := temp_progress | battery_progress.

Inductive Number : Type :=
| Int (n : Z)
| Float (x : float).

(** What [main] sends to the console and to the progress display.  A
    transition is logged as the text [f"{state} -> {mug.liquid_state.name}"];
    the event keeps the two values the text is made of. *)
Inductive Event : Type :=
| ConsoleLog (text : string)
| ConsolePrint (text : string)
| ConsoleLogMug (mug : Mug)
| ConsoleLogTransition (old : option LiquidState) (new : LiquidState)
| AddTask (task : Task) (description : string) (total : Number)
| Update (task : Task) (completed : Number)
| Sleep (seconds : Z).

(** [state != s] where [state] is None or a member of LiquidState. *)
Definition state_neq (state : option LiquidState) (s : LiquidState) : bool :=
  match state with
  | None => true
  | Some p => negb (LiquidState_eqb p s)
  end.

(** The match statement at the end of a cycle: four members are named and
    do nothing, every other value logs the mug. *)
Definition match_liquid_state (mug : Mug) : list Event :=
  match liquid_state mug with
  | Empty => []
  | Heating => []
  | Cooling => []
  | Stable => []
  | _ => [ConsoleLogMug mug]
  end.

(** One pass through the body of [while True], after [get_mug] returned
    [mug]; [temp_unit] is the local bound before the loop, [state] the
    local the loop assigns. *)
Definition cycle (temp_unit : TempUnit) (state : option LiquidState) (mug : Mug)
  : option LiquidState * list Event :=
  let update_temp :=
    if TempUnit_eqb temp_unit C
    then Update temp_progress (Float (c (current_temp_temp (current_temp mug))))
    else Update temp_progress (Float (f (current_temp_temp (current_temp mug)))) in
  let update_battery := Update battery_progress (Int (percent (battery mug))) in
  let '(state', logged) :=
    if state_neq state (liquid_state mug)
    then (Some (liquid_state mug),
          [ConsoleLogTransition state (liquid_state mug)])
    else (state, []) in
  (state',
   [update_temp; update_battery] ++ logged ++ match_liquid_state mug ++ [Sleep 1]).

Inductive Outcome : Type :=
| Exit (code : Z)      (* SystemExit *)
| Raised (e : exn)     (* an exception left main *)
| Polling.             (* still in the loop *)

(** [while True] over the outcomes of the successive [get_mug] calls; the
    loop ends only when one of them raises. *)
Fixpoint poll_loop (temp_unit : TempUnit) (state : option LiquidState)
    (mugs : list (result Mug)) : list Event * Outcome :=
  match mugs with
  | [] => ([], Polling)
  | Err e :: _ => ([], Raised e)
  | Ok mug :: rest =>
      let '(state', events) := cycle temp_unit state mug in
      let '(later, out) := poll_loop temp_unit state' rest in
      (events ++ later, out)
  end.

(** The body of [async with BleakClient(device) as client], over the
    outcomes of its [get_mug] calls: the first one before the loop, the
    others one per cycle.  With no outcome left the run is still waiting. *)
Definition main_connected (mugs : list (result Mug)) : list Event * Outcome :=
  match mugs with
  | [] => ([], Polling)
  | Err e :: _ => ([], Raised e)
  | Ok mug :: rest =>
      let state : option LiquidState := None in
      let temp_unit := temp_unit mug in
      let temp_total :=
        if TempUnit_eqb temp_unit F
        then f (target_temp_temp (target_temp mug))
        else c (target_temp_temp (target_temp mug)) in
      let '(later, out) := poll_loop temp_unit state rest in
      ([ ConsolePrint ("Mug: " ++ name_str (name mug));
         ConsoleLogMug mug;
         AddTask temp_progress "[red]Temp" (Float temp_total);
         AddTask battery_progress "[green]Battery" (Int 100) ] ++ later,
       out)
  end.

(** One [get_mug] call as the link sees it: what the client answers and
    the order in which the eight reads finish. *)
Record Poll : Type :=
  { client : BleakClient; completion : list nat }.

Definition main (device : option string) (polls : list Poll)
  : list Event * Outcome :=
  match device with
  | None => ([ConsoleLog "not found"], Exit 1)
  | Some _ =>
      main_connected (map (fun p => get_mug (client p) (completion p)) polls)
  end.

(** The transitions logged in a trace, oldest first. *)
Definition transition_events (events : list Event)
  : list (option LiquidState * LiquidState) :=
  flat_map (fun e => match e with
                     | ConsoleLogTransition old new => [(old, new)]
                     | _ => []
                     end) events.

(** The values the temperature bar was set to, oldest first. *)
Definition temp_updates (events : list Event) : list Number :=
  flat_map (fun e => match e with
                     | Update temp_progress x => [x]
                     | _ => []
                     end) events.

(** The totals the temperature bar was created with. *)
Definition temp_totals (events : list Event) : list Number :=
  flat_map (fun e => match e with
                     | AddTask temp_progress _ x => [x]
                     | _ => []
                     end) events.

(** The leading successful outcomes of a run of calls. *)
Fixpoint ok_prefix {A} (rs : list (result A)) : list A :=
  match rs with
  | Ok a :: rest => a :: ok_prefix rest
  | _ => []
  end.

(** ** A device that answers, for examples *)

Definition example_responses (liquid : byte) (unit : byte) (target : bytearray)
  : list (string * bytearray) :=
  [ ("fc540001-236c-4c94-8fa9-944a3e5353fa", [x45; x6d; x62; x65; x72]);
    ("fc540002-236c-4c94-8fa9-944a3e5353fa", [xd0; x07]);
    ("fc540003-236c-4c94-8fa9-944a3e5353fa", target);
    ("fc540004-236c-4c94-8fa9-944a3e5353fa", [unit]);
    ("fc540005-236c-4c94-8fa9-944a3e5353fa", [x1e]);
    ("fc540007-236c-4c94-8fa9-944a3e5353fa", [x32; x01]);
    ("fc540008-236c-4c94-8fa9-944a3e5353fa", [liquid]);
    ("fc540014-236c-4c94-8fa9-944a3e5353fa", [xff; x80; x00; xff])
  ]%string.

(** Unknown identifiers make the read fail. *)
Definition example_client (liquid unit : byte) (target : bytearray) : BleakClient :=
  {| read_gatt_char uuid :=
       match dict_get (example_responses liquid unit target) uuid with
       | Ok data => Ok data
       | Err _ => Err BleakError
       end |}.

Definition example_mug (s : LiquidState) : Mug :=
  mkMug (mkMugName "Ember")
        (mkCurrentTemp (mkTemp 20 68))
        (mkTargetTemp (mkTemp 55 131))
        C
        (mkLiquidLevel 30)
        (mkBattery 50 true)
        s
        (mkMugColor 255 128 0 255).

(** ** Notions used in the statements *)

(** A temperature is derived when its Fahrenheit component is computed
    from its Celsius component. *)
Definition Temp_derived (t : Temp) : Prop :=
  f t = (c t * f1_8 + f32)%float.

(** The positional arguments that rebuild [m]. *)
Definition attrs_of_Mug (m : Mug) : list Value :=
  [ VMugName (name m); VCurrentTemp (current_temp m);
    VTargetTemp (target_temp m); VTempUnit (temp_unit m);
    VLiquidLevel (liquid_level m); VBattery (battery m);
    VLiquidState (liquid_state m); VMugColor (color m) ].

(** A client whose reads all return: [resp] gives the bytes behind each
    identifier. *)
Definition answering (resp : string -> bytearray) : BleakClient :=
  {| read_gatt_char uuid := Ok (resp uuid) |}.

(** The transitions the loop logs, as a function of the liquid states it
    sees and of the state it starts from. *)
Fixpoint transitions (state : option LiquidState) (seen : list LiquidState)
  : list (option LiquidState * LiquidState) :=
  match seen with
  | [] => []
  | s :: rest =>
      if state_neq state s
      then (state, s) :: transitions (Some s) rest
      else transitions state rest
  end.

(** ** Observers of a trace and of a run *)

(** The values the battery bar was set to, oldest first. *)
Definition battery_updates (events : list Event) : list Number :=
  flat_map (fun e => match e with
                     | Update battery_progress x => [x]
                     | _ => []
                     end) events.

(** The totals the battery bar was created with. *)
Definition battery_totals (events : list Event) : list Number :=
  flat_map (fun e => match e with
                     | AddTask battery_progress _ x => [x]
                     | _ => []
                     end) events.

(** The snapshots written to the log, oldest first. *)
Definition mug_logs (events : list Event) : list Mug :=
  flat_map (fun e => match e with
                     | ConsoleLogMug m => [m]
                     | _ => []
                     end) events.

(** The pauses taken, in seconds. *)
Definition sleeps (events : list Event) : list Z :=
  flat_map (fun e => match e with
                     | Sleep n => [n]
                     | _ => []
                     end) events.

(** The exception of the first call that raised. *)
Fixpoint first_error {A} (rs : list (result A)) : option exn :=
  match rs with
  | [] => None
  | Ok _ :: rest => first_error rest
  | Err e :: _ => Some e
  end.

(** The liquid states the match statement has no case for. *)
Definition unnamed_state (s : LiquidState) : bool :=
  match s with
  | Filling | Unknown => true
  | _ => false
  end.

(** The identifiers the registry knows. *)
Definition registered_uuids : list string :=
  map (fun e => fst (snd e)) CHARACTERISTICS.

(** The liquid states with repeats of the previous one left out. *)
Fixpoint changes (state : option LiquidState) (seen : list LiquidState)
  : list LiquidState :=
  match seen with
  | [] => []
  | s :: rest =>
      if state_neq state s then s :: changes (Some s) rest
      else changes state rest
  end.

(** ** Checking a property of every 16-bit reading *)

(** [P] on the [p] integers from [z] on. *)
Fixpoint all_from (p : positive) (z : Z) (P : Z -> bool) : bool :=
  match p with
  | xH => P z
  | xO q => all_from q z P && all_from q (z + Z.pos q) P
  | xI q => P z && all_from q (z + 1) P && all_from q (z + 1 + Z.pos q) P
  end.

(** The Celsius value [read_temp] computes from a raw reading. *)
Definition celsius_of (raw : Z) : float :=
  PrimFloat.mul (float_of_int raw) f0_01.

(** The real value of a finite float, times 2^60; exact for the
    magnitudes temperatures have. *)
Definition scaled (x : float) : Z :=
  match Prim2SF x with
  | S754_finite s m e =>
      let v := Z.pos m * 2 ^ (e + 60) in if s then - v else v
  | _ => 0
  end.

Definition in_bounds (raw : Z) : bool :=
  let x := celsius_of raw in
  PrimFloat.leb (-328)%float x && PrimFloat.leb x 328%float
  && PrimFloat.leb (-559)%float (c_to_f x) && PrimFloat.leb (c_to_f x) 623%float.

Definition step_up (raw : Z) : bool :=
  (scaled (celsius_of raw) <? scaled (celsius_of (raw + 1)))
  && (scaled (c_to_f (celsius_of raw)) <? scaled (c_to_f (celsius_of (raw + 1))))
  && PrimFloat.ltb (celsius_of raw) (celsius_of (raw + 1))
  && PrimFloat.ltb (c_to_f (celsius_of raw)) (c_to_f (celsius_of (raw + 1))).

(** * Properties *)

(** ** Decoders on concrete payloads *)

(** C7: the payload [D0 07] decodes to 20.0 C / 68.0 F (as a bare Temp and
    through both temperature decoders), the payload [06] to the liquid
    state Stable, and the payload [32 01] to a battery at 50 percent that
    is charging. *)
Theorem decode_examples :
  read_temp [xd0; x07] = Ok (mkTemp 20 68) /\
  decode_current_temp [xd0; x07] = Ok (mkCurrentTemp (mkTemp 20 68)) /\
  decode_target_temp [xd0; x07] = Ok (mkTargetTemp (mkTemp 20 68)) /\
  decode_liquid_state [x06] = Ok Stable /\
  decode_battery [x32; x01] = Ok (mkBattery 50 true).
Proof. repeat split; vm_compute; reflexivity. Qed.

(** C5: a temperature payload of one or of three bytes is refused with the
    wrong-size error of struct.unpack, whatever the bytes; the liquid-state
    bytes 0 and 7 and the temp-unit byte 2 are refused with the ValueError
    of an enum lookup that finds no member. *)
Theorem decoders_reject_malformed :
  (forall b0, read_temp [b0] = Err StructError) /\
  (forall b0 b1 b2, read_temp [b0; b1; b2] = Err StructError) /\
  (forall b0, decode_current_temp [b0] = Err StructError) /\
  (forall b0 b1 b2, decode_current_temp [b0; b1; b2] = Err StructError) /\
  (forall b0, decode_target_temp [b0] = Err StructError) /\
  (forall b0 b1 b2, decode_target_temp [b0; b1; b2] = Err StructError) /\
  decode_liquid_state [x00] = Err ValueError /\
  decode_liquid_state [x07] = Err ValueError /\
  decode_temp_unit [x02] = Err ValueError.
Proof. repeat split; intros; reflexivity. Qed.

(** ** Unit projection *)

Lemma temp_str_C (t : Temp) : temp_str t C = (c t, "C"%string).
Proof. reflexivity. Qed.

Lemma temp_str_F (t : Temp) : temp_str t F = (f t, "F"%string).
Proof. reflexivity. Qed.

Lemma temp_updates_cycle (u : TempUnit) (state : option LiquidState) (mug : Mug) :
  temp_updates (snd (cycle u state mug))
  = [Float (fst (temp_str (current_temp_temp (current_temp mug)) u))].
Proof.
  unfold cycle, match_liquid_state.
  destruct u, (state_neq state (liquid_state mug)), (liquid_state mug);
    reflexivity.
Qed.

(** C6: the reading 20.0 C / 68.0 F projects to 68.0 under unit F and to
    20.0 under unit C; for every reading, unit C selects the c component
    and unit F the f component, both in temp_str and in the value a cycle
    of the loop reports for the temperature bar. *)
Theorem unit_projection :
  fst (temp_str (mkTemp 20 68) F) = 68%float /\
  fst (temp_str (mkTemp 20 68) C) = 20%float /\
  (forall t, fst (temp_str t C) = c t) /\
  (forall t, fst (temp_str t F) = f t) /\
  (forall state mug,
      temp_updates (snd (cycle C state mug))
      = [Float (c (current_temp_temp (current_temp mug)))]) /\
  (forall state mug,
      temp_updates (snd (cycle F state mug))
      = [Float (f (current_temp_temp (current_temp mug)))]).
Proof.
  repeat split; intros; try reflexivity;
    rewrite temp_updates_cycle; reflexivity.
Qed.

(** ** Registry *)

Lemma dict_get_In {V} (d : list (string * V)) (k : string) :
  (exists v, dict_get d k = Ok v) <-> In k (map fst d).
Proof.
  induction d as [|[k' v'] d IH]; cbn.
  - split; [intros [v H]; discriminate | tauto].
  - destruct (String.eqb_spec k k') as [->|Hne].
    + split; [auto | eauto].
    + rewrite IH. split; [auto | intros [H|H]; [congruence | exact H]].
Qed.

(** C10: the keys of the registry are the eight canonical names, each
    once and in this order; a lookup succeeds for these names and for no
    other; no two entries carry the same identifier. *)
Theorem registry_keys_and_uuids :
  map fst CHARACTERISTICS =
    [ "mug-name"; "current-temp"; "target-temp"; "temp-unit";
      "liquid-level"; "battery"; "liquid-state"; "mug-color" ]%string /\
  List.length CHARACTERISTICS = 8%nat /\
  NoDup (map fst CHARACTERISTICS) /\
  (forall k, (exists e, dict_get CHARACTERISTICS k = Ok e) <-> In k mug_keys) /\
  NoDup (map (fun e => fst (snd e)) CHARACTERISTICS).
Proof.
  split; [reflexivity|].
  split; [reflexivity|].
  split.
  { cbn. repeat (constructor; [cbn; intuition discriminate|]). constructor. }
  split.
  { intro k. rewrite dict_get_In. reflexivity. }
  cbn. repeat (constructor; [cbn; intuition discriminate|]). constructor.
Qed.

(** ** gather *)

Section Gather.
Context {A : Type}.
Implicit Types (tasks : list (result A)) (completion : list nat).

Lemma first_raised_In completion tasks e :
  first_raised completion tasks = Some e -> In (Err e) tasks.
Proof.
  induction completion as [|i rest IH]; cbn; [discriminate|].
  destruct (nth_error tasks i) as [[x|e']|] eqn:Hi; auto.
  intros [= ->]. eapply nth_error_In; eassumption.
Qed.

Lemma first_raised_all_ok completion (xs : list A) :
  first_raised completion (map Ok xs) = None.
Proof.
  induction completion as [|i rest IH]; cbn; [reflexivity|].
  rewrite nth_error_map. destruct (nth_error xs i); exact IH.
Qed.

Lemma results_Ok tasks (xs : list A) :
  results tasks = Ok xs <-> tasks = map Ok xs.
Proof.
  revert xs. induction tasks as [|[x|e] tasks IH]; intros xs; cbn.
  - split; [intros [= <-]; reflexivity | destruct xs; [reflexivity | discriminate]].
  - destruct (results tasks) as [ys|e] eqn:Hr; cbn.
    + split.
      * intros [= <-]. cbn. f_equal. apply IH. reflexivity.
      * destruct xs as [|x' xs]; [discriminate|]. intros [= -> H].
        apply IH in H. injection H as ->. reflexivity.
    + split; [discriminate|].
      destruct xs as [|x' xs]; [discriminate|]. intros [= -> H].
      apply IH in H. discriminate.
  - split; [discriminate | destruct xs; discriminate].
Qed.

Lemma results_Err_In tasks e :
  results tasks = Err e -> In (Err e) tasks.
Proof.
  induction tasks as [|[x|e'] tasks IH]; cbn; [discriminate| |].
  - destruct (results tasks); cbn; [discriminate|].
    intros [= ->]. right. apply IH. reflexivity.
  - intros [= ->]. left. reflexivity.
Qed.

(** The gather returns exactly when every task returned, and then gives
    the results in argument order whatever the completion order. *)
Lemma gather_Ok completion tasks (xs : list A) :
  gather completion tasks = Ok xs <-> tasks = map Ok xs.
Proof.
  unfold gather. split.
  - destruct (first_raised completion tasks); [discriminate|].
    apply results_Ok.
  - intros ->. rewrite first_raised_all_ok. apply results_Ok. reflexivity.
Qed.

(** An exception out of the gather is the exception of one of its tasks. *)
Lemma gather_Err_In completion tasks e :
  gather completion tasks = Err e -> In (Err e) tasks.
Proof.
  unfold gather.
  destruct (first_raised completion tasks) as [e'|] eqn:Hf.
  - intros [= <-]. eapply first_raised_In; eassumption.
  - apply results_Err_In.
Qed.

Lemma gather_raises completion tasks e :
  In (Err e) tasks ->
  exists e', gather completion tasks = Err e' /\ In (Err e') tasks.
Proof.
  intros Hin. destruct (gather completion tasks) as [xs|e'] eqn:Hg.
  - apply gather_Ok in Hg. subst tasks.
    apply in_map_iff in Hin. destruct Hin as (x & Hx & _). discriminate.
  - exists e'. split; [reflexivity|]. eapply gather_Err_In; eassumption.
Qed.
End Gather.

(** ** Snapshot assembly *)

Lemma get_mug_tasks (client : BleakClient) :
  map (read_char client) mug_keys =
  [ data <- read_gatt_char client "fc540001-236c-4c94-8fa9-944a3e5353fa" ;;
      lift decode_mug_name VMugName data;
    data <- read_gatt_char client "fc540002-236c-4c94-8fa9-944a3e5353fa" ;;
      lift decode_current_temp VCurrentTemp data;
    data <- read_gatt_char client "fc540003-236c-4c94-8fa9-944a3e5353fa" ;;
      lift decode_target_temp VTargetTemp data;
    data <- read_gatt_char client "fc540004-236c-4c94-8fa9-944a3e5353fa" ;;
      lift decode_temp_unit VTempUnit data;
    data <- read_gatt_char client "fc540005-236c-4c94-8fa9-944a3e5353fa" ;;
      lift decode_liquid_level VLiquidLevel data;
    data <- read_gatt_char client "fc540007-236c-4c94-8fa9-944a3e5353fa" ;;
      lift decode_battery VBattery data;
    data <- read_gatt_char client "fc540008-236c-4c94-8fa9-944a3e5353fa" ;;
      lift decode_liquid_state VLiquidState data;
    data <- read_gatt_char client "fc540014-236c-4c94-8fa9-944a3e5353fa" ;;
      lift decode_mug_color VMugColor data ].
Proof. reflexivity. Qed.

Lemma Mug_of_attrs_Ok (attrs : list Value) (m : Mug) :
  Mug_of_attrs attrs = Ok m <-> attrs = attrs_of_Mug m.
Proof.
  split.
  - unfold Mug_of_attrs.
    repeat match goal with
           | |- match ?x with _ => _ end = Ok _ -> _ =>
               destruct x; try discriminate
           end.
    intros [= <-]. reflexivity.
  - intros ->. destruct m; reflexivity.
Qed.

(** [get_mug] returns [m] exactly when each of the eight reads returned
    the matching field of [m], whatever the completion order. *)
Lemma get_mug_Ok (client : BleakClient) (completion : list nat) (m : Mug) :
  get_mug client completion = Ok m <->
  map (read_char client) mug_keys = map Ok (attrs_of_Mug m).
Proof.
  unfold get_mug. split.
  - destruct (gather completion (map (read_char client) mug_keys))
      as [attrs|e] eqn:Hg; cbn; [|discriminate].
    intros H. apply Mug_of_attrs_Ok in H. subst attrs.
    apply gather_Ok in Hg. exact Hg.
  - intros H. apply (gather_Ok completion) in H. rewrite H.
    cbn [bind]. apply Mug_of_attrs_Ok. reflexivity.
Qed.

Lemma read_char_class {T} (read : result bytearray)
    (dec : bytearray -> result T) (inj : T -> Value) (v : Value) :
  (data <- read ;; lift dec inj data) = Ok v -> exists x, v = inj x.
Proof.
  destruct read as [data|e]; cbn [bind]; [|discriminate].
  unfold lift. destruct (dec data) as [x|e]; cbn [bind]; [|discriminate].
  intros [= <-]. exists x. reflexivity.
Qed.

(** What the eight reads return always fits the constructor. *)
Lemma Mug_of_attrs_registry (client : BleakClient) (attrs : list Value) :
  map (read_char client) mug_keys = map Ok attrs ->
  exists m, Mug_of_attrs attrs = Ok m.
Proof.
  rewrite get_mug_tasks.
  destruct attrs as [|v1 [|v2 [|v3 [|v4 [|v5 [|v6 [|v7 [|v8 [|v9 rest]]]]]]]]];
    try discriminate.
  intros [= H1 H2 H3 H4 H5 H6 H7 H8].
  apply read_char_class in H1, H2, H3, H4, H5, H6, H7, H8.
  destruct H1 as [x1 ->], H2 as [x2 ->], H3 as [x3 ->], H4 as [x4 ->],
           H5 as [x5 ->], H6 as [x6 ->], H7 as [x7 ->], H8 as [x8 ->].
  eexists. reflexivity.
Qed.

Lemma get_mug_raises (client : BleakClient) (completion : list nat) (e : exn) :
  In (Err e) (map (read_char client) mug_keys) ->
  exists e', get_mug client completion = Err e' /\
             In (Err e') (map (read_char client) mug_keys).
Proof.
  intros Hin. destruct (gather_raises completion _ _ Hin) as (e' & Hg & Hin').
  exists e'. split; [|exact Hin']. unfold get_mug. rewrite Hg. reflexivity.
Qed.

(** C2: when the read or the decode of one of the eight characteristics
    fails, [get_mug] returns no Mug at all, under any completion order: it
    raises, and what it raises is the error of a read that failed; when
    every failed read carries the same error (in particular when only one
    read fails) it raises that error. *)
Theorem get_mug_all_or_nothing
    (client : BleakClient) (completion : list nat) (k : string) (e : exn) :
  In k mug_keys ->
  read_char client k = Err e ->
  (forall m, get_mug client completion <> Ok m) /\
  (exists k' e', In k' mug_keys /\ read_char client k' = Err e' /\
                 get_mug client completion = Err e') /\
  ((forall k' e', In k' mug_keys -> read_char client k' = Err e' -> e' = e) ->
   get_mug client completion = Err e).
Proof.
  intros Hk Hfail.
  assert (Hin : In (Err e) (map (read_char client) mug_keys)).
  { rewrite <- Hfail. apply in_map. exact Hk. }
  destruct (get_mug_raises client completion e Hin) as (e' & Hg & Hin').
  apply in_map_iff in Hin'. destruct Hin' as (k' & Hk' & Hink').
  split; [| split].
  - intros m Hm. rewrite Hg in Hm. discriminate.
  - exists k', e'. auto.
  - intros Hsame. rewrite Hg. f_equal. eapply Hsame; eassumption.
Qed.

Lemma lift_Ok {T} (dec : bytearray -> result T) (inj : T -> Value)
    (data : bytearray) (x : T) :
  (forall y z, inj y = inj z -> y = z) ->
  lift dec inj data = Ok (inj x) <-> dec data = Ok x.
Proof.
  intros Hinj. unfold lift. destruct (dec data) as [y|e]; cbn.
  - split; intros [= H]; [apply Hinj in H|]; congruence.
  - split; discriminate.
Qed.

(** C3: whatever bytes stand behind the eight identifiers and whatever
    order the reads finish in, [get_mug] returns [m] exactly when every
    field of [m] is the decoding, by the decoder of its name, of the bytes
    behind the identifier of that name. *)
Theorem get_mug_field_mapping
    (resp : string -> bytearray) (completion : list nat) (m : Mug) :
  get_mug (answering resp) completion = Ok m <->
  decode_mug_name (resp "fc540001-236c-4c94-8fa9-944a3e5353fa"%string) = Ok (name m) /\
  decode_current_temp (resp "fc540002-236c-4c94-8fa9-944a3e5353fa"%string)
    = Ok (current_temp m) /\
  decode_target_temp (resp "fc540003-236c-4c94-8fa9-944a3e5353fa"%string)
    = Ok (target_temp m) /\
  decode_temp_unit (resp "fc540004-236c-4c94-8fa9-944a3e5353fa"%string)
    = Ok (temp_unit m) /\
  decode_liquid_level (resp "fc540005-236c-4c94-8fa9-944a3e5353fa"%string)
    = Ok (liquid_level m) /\
  decode_battery (resp "fc540007-236c-4c94-8fa9-944a3e5353fa"%string) = Ok (battery m) /\
  decode_liquid_state (resp "fc540008-236c-4c94-8fa9-944a3e5353fa"%string)
    = Ok (liquid_state m) /\
  decode_mug_color (resp "fc540014-236c-4c94-8fa9-944a3e5353fa"%string) = Ok (color m).
Proof.
  rewrite get_mug_Ok, get_mug_tasks.
  unfold answering, attrs_of_Mug. cbn [read_gatt_char bind map].
  rewrite <- (lift_Ok decode_mug_name VMugName) by congruence.
  rewrite <- (lift_Ok decode_current_temp VCurrentTemp) by congruence.
  rewrite <- (lift_Ok decode_target_temp VTargetTemp) by congruence.
  rewrite <- (lift_Ok decode_temp_unit VTempUnit) by congruence.
  rewrite <- (lift_Ok decode_liquid_level VLiquidLevel) by congruence.
  rewrite <- (lift_Ok decode_battery VBattery) by congruence.
  rewrite <- (lift_Ok decode_liquid_state VLiquidState) by congruence.
  rewrite <- (lift_Ok decode_mug_color VMugColor) by congruence.
  split.
  - intros [= -> -> -> -> -> -> -> ->]. repeat split.
  - intros (-> & -> & -> & -> & -> & -> & -> & ->). reflexivity.
Qed.

Lemma get_mug_all_or_nothing_witness :
  get_mug (example_client x07 x00 [x7c; x15]) [7; 6; 5; 4; 3; 2; 1; 0]%nat
  = Err ValueError.
Proof.
  apply (get_mug_all_or_nothing
           (example_client x07 x00 [x7c; x15]) [7; 6; 5; 4; 3; 2; 1; 0]%nat
           "liquid-state" ValueError).
  - cbn. tauto.
  - vm_compute. reflexivity.
  - intros k' e' Hk' Hfail. cbn in Hk'.
    repeat (destruct Hk' as [<-|Hk']; [vm_compute in Hfail; congruence|]).
    contradiction.
Defined.

Lemma get_mug_field_mapping_witness :
  get_mug (answering (fun uuid =>
                        match dict_get (example_responses x06 x00 [x7c; x15]) uuid with
                        | Ok data => data
                        | Err _ => []
                        end))
          [3; 1; 0; 2; 7; 6; 5; 4]%nat
  = Ok (example_mug Stable).
Proof.
  apply get_mug_field_mapping. repeat split; vm_compute; reflexivity.
Defined.

(** The order in which the reads finish does not change a snapshot. *)
Lemma get_mug_order_irrelevant (client : BleakClient) (c1 c2 : list nat) (m : Mug) :
  get_mug client c1 = Ok m -> get_mug client c2 = Ok m.
Proof. rewrite !get_mug_Ok. auto. Qed.

(** ** Temperature codec *)

Lemma int_of_byte_range (x : byte) : 0 <= int_of_byte x < 256.
Proof.
  unfold int_of_byte. pose proof (Byte.to_N_bounded x). lia.
Qed.

Lemma read_temp_derived (data : bytearray) (t : Temp) :
  read_temp data = Ok t -> Temp_derived t.
Proof.
  unfold read_temp. destruct (read_uint16 data) as [raw|e]; cbn; [|discriminate].
  intros [= <-]. reflexivity.
Qed.

Lemma read_uint16_int16 (b0 b1 : byte) (raw : Z) :
  -32768 <= raw < 32768 ->
  raw mod 65536 = int_of_byte b0 + 256 * int_of_byte b1 ->
  read_uint16 [b0; b1] = Ok raw.
Proof.
  intros Hrange Hmod. unfold read_uint16. cbv zeta.
  pose proof (int_of_byte_range b0). pose proof (int_of_byte_range b1).
  f_equal. destruct (Z.ltb_spec (int_of_byte b0 + 256 * int_of_byte b1) 32768);
    revert Hmod; Z.div_mod_to_equations; lia.
Qed.

Lemma decode_current_temp_derived (data : bytearray) (v : CurrentTemp) :
  decode_current_temp data = Ok v -> Temp_derived (current_temp_temp v).
Proof.
  unfold decode_current_temp.
  destruct (read_temp data) as [t|e] eqn:Ht; cbn; [|discriminate].
  intros [= <-]. eapply read_temp_derived; eassumption.
Qed.

Lemma decode_target_temp_derived (data : bytearray) (v : TargetTemp) :
  decode_target_temp data = Ok v -> Temp_derived (target_temp_temp v).
Proof.
  unfold decode_target_temp.
  destruct (read_temp data) as [t|e] eqn:Ht; cbn; [|discriminate].
  intros [= <-]. eapply read_temp_derived; eassumption.
Qed.

Lemma get_mug_current_temp_derived
    (client : BleakClient) (completion : list nat) (m : Mug) :
  get_mug client completion = Ok m ->
  Temp_derived (current_temp_temp (current_temp m)).
Proof.
  intros H. apply get_mug_Ok in H. rewrite get_mug_tasks in H.
  injection H as _ H _ _ _ _ _ _. revert H.
  destruct (read_gatt_char client _) as [data|e]; cbn [bind]; [|discriminate].
  rewrite lift_Ok by congruence. apply decode_current_temp_derived.
Qed.

Lemma get_mug_target_temp_derived
    (client : BleakClient) (completion : list nat) (m : Mug) :
  get_mug client completion = Ok m ->
  Temp_derived (target_temp_temp (target_temp m)).
Proof.
  intros H. apply get_mug_Ok in H. rewrite get_mug_tasks in H.
  injection H as _ _ H _ _ _ _ _. revert H.
  destruct (read_gatt_char client _) as [data|e]; cbn [bind]; [|discriminate].
  rewrite lift_Ok by congruence. apply decode_target_temp_derived.
Qed.

(** C1: for two bytes that are the little-endian two's-complement form of
    the 16-bit integer [raw], [read_temp] (and with it both temperature
    decoders) returns the Temp whose c is [raw * 0.01] and whose f is
    [c * 1.8 + 32], in binary64 arithmetic; every Temp that [read_temp],
    a temperature decoder or [get_mug] returns has its f derived from its
    c in this way. *)
Theorem read_temp_spec (b0 b1 : byte) (raw : Z) :
  -32768 <= raw < 32768 ->
  raw mod 65536 = int_of_byte b0 + 256 * int_of_byte b1 ->
  let celsius := (float_of_int raw * f0_01)%float in
  let temp := mkTemp celsius (celsius * f1_8 + f32)%float in
  read_temp [b0; b1] = Ok temp /\
  decode_current_temp [b0; b1] = Ok (mkCurrentTemp temp) /\
  decode_target_temp [b0; b1] = Ok (mkTargetTemp temp) /\
  (forall data t, read_temp data = Ok t -> Temp_derived t) /\
  (forall data v, decode_current_temp data = Ok v ->
                  Temp_derived (current_temp_temp v)) /\
  (forall data v, decode_target_temp data = Ok v ->
                  Temp_derived (target_temp_temp v)) /\
  (forall client completion m,
      get_mug client completion = Ok m ->
      Temp_derived (current_temp_temp (current_temp m)) /\
      Temp_derived (target_temp_temp (target_temp m))).
Proof.
  intros Hrange Hmod celsius temp.
  assert (Hread : read_temp [b0; b1] = Ok temp).
  { unfold read_temp. rewrite (read_uint16_int16 b0 b1 raw Hrange Hmod).
    reflexivity. }
  repeat split.
  - exact Hread.
  - unfold decode_current_temp. rewrite Hread. reflexivity.
  - unfold decode_target_temp. rewrite Hread. reflexivity.
  - exact read_temp_derived.
  - exact decode_current_temp_derived.
  - exact decode_target_temp_derived.
  - eapply get_mug_current_temp_derived; eassumption.
  - eapply get_mug_target_temp_derived; eassumption.
Qed.

Lemma read_temp_spec_witness :
  (-32768 <= -1 < 32768) /\
  (-1) mod 65536 = int_of_byte xff + 256 * int_of_byte xff /\
  read_temp [xff; xff]
  = Ok (mkTemp (float_of_int (-1) * f0_01)
               (float_of_int (-1) * f0_01 * f1_8 + f32)) /\
  Temp_derived (mkTemp 20 68) /\
  Temp_derived (target_temp_temp (target_temp (example_mug Stable))).
Proof.
  assert (Hrange : -32768 <= -1 < 32768) by lia.
  assert (Hmod : (-1) mod 65536 = int_of_byte xff + 256 * int_of_byte xff)
    by reflexivity.
  pose proof (read_temp_spec xff xff (-1) Hrange Hmod) as Hspec.
  cbv zeta in Hspec.
  destruct Hspec as (Hread & _ & _ & Hderived & _ & _ & Hmug).
  split; [exact Hrange|]. split; [exact Hmod|]. split; [exact Hread|]. split.
  - apply (Hderived [xd0; x07]). vm_compute. reflexivity.
  - apply (Hmug (example_client x06 x00 [x7c; x15]) [0; 1; 2; 3; 4; 5; 6; 7]%nat).
    vm_compute. reflexivity.
Defined.

(** ** Width of the payloads *)

(** C9: the decoders of temp-unit, liquid-level, liquid-state, battery and
    mug-color read their bytes by index and never look at the length of
    the buffer.  Bytes after the expected width are ignored: the result is
    that of the leading bytes alone, a success for liquid-level, battery
    and mug-color whatever the bytes, and for the two enums whenever the
    first byte names a member.  A buffer shorter than the expected width
    raises IndexError.  The temperature decoder alone checks the length. *)
Theorem fixed_width_decoders_ignore_length :
  (* longer buffers: trailing bytes ignored *)
  (forall b0 rest,
      decode_temp_unit (b0 :: rest) = decode_temp_unit [b0]) /\
  (forall rest, decode_temp_unit (x00 :: rest) = Ok C) /\
  (forall rest, decode_temp_unit (x01 :: rest) = Ok F) /\
  (forall b0 rest,
      decode_liquid_level (b0 :: rest) = Ok (mkLiquidLevel (int_of_byte b0))) /\
  (forall b0 rest,
      decode_liquid_state (b0 :: rest) = decode_liquid_state [b0]) /\
  (forall s rest,
      exists b0, int_of_byte b0 = LiquidState_value s /\
                 decode_liquid_state (b0 :: rest) = Ok s) /\
  (forall b0 b1 rest,
      decode_battery (b0 :: b1 :: rest)
      = Ok (mkBattery (int_of_byte b0) (negb (int_of_byte b1 =? 0)))) /\
  (forall b0 b1 b2 b3 rest,
      decode_mug_color (b0 :: b1 :: b2 :: b3 :: rest)
      = Ok (mkMugColor (int_of_byte b0) (int_of_byte b1)
                       (int_of_byte b2) (int_of_byte b3))) /\
  (* shorter buffers: IndexError *)
  decode_temp_unit [] = Err IndexError /\
  decode_liquid_level [] = Err IndexError /\
  decode_liquid_state [] = Err IndexError /\
  decode_battery [] = Err IndexError /\
  (forall b0, decode_battery [b0] = Err IndexError) /\
  decode_mug_color [] = Err IndexError /\
  (forall b0, decode_mug_color [b0] = Err IndexError) /\
  (forall b0 b1, decode_mug_color [b0; b1] = Err IndexError) /\
  (forall b0 b1 b2, decode_mug_color [b0; b1; b2] = Err IndexError) /\
  (* the temperature decoder does check *)
  (forall b0 b1 b2 rest, read_temp (b0 :: b1 :: b2 :: rest) = Err StructError).
Proof.
  repeat split; intros; try reflexivity.
  destruct s;
    [exists x01 | exists x02 | exists x03 | exists x04 | exists x05 | exists x06];
    split; reflexivity.
Qed.

(** ** Traces of the poll loop *)

Section Traces.
Variable temp_unit0 : TempUnit.

Lemma cycle_state (state : option LiquidState) (mug : Mug) :
  fst (cycle temp_unit0 state mug)
  = if state_neq state (liquid_state mug) then Some (liquid_state mug) else state.
Proof.
  unfold cycle. destruct (state_neq state (liquid_state mug)); reflexivity.
Qed.

Lemma transition_events_cycle (state : option LiquidState) (mug : Mug) :
  transition_events (snd (cycle temp_unit0 state mug))
  = if state_neq state (liquid_state mug) then [(state, liquid_state mug)] else [].
Proof.
  unfold cycle, match_liquid_state.
  destruct temp_unit0, (state_neq state (liquid_state mug)), (liquid_state mug);
    reflexivity.
Qed.

Lemma temp_totals_cycle (state : option LiquidState) (mug : Mug) :
  temp_totals (snd (cycle temp_unit0 state mug)) = [].
Proof.
  unfold cycle, match_liquid_state.
  destruct temp_unit0, (state_neq state (liquid_state mug)), (liquid_state mug);
    reflexivity.
Qed.

Lemma poll_loop_Ok (state : option LiquidState) (mug : Mug) (rest : list (result Mug)) :
  fst (poll_loop temp_unit0 state (Ok mug :: rest))
  = snd (cycle temp_unit0 state mug)
    ++ fst (poll_loop temp_unit0 (fst (cycle temp_unit0 state mug)) rest).
Proof.
  cbn [poll_loop]. destruct (cycle temp_unit0 state mug) as [state' events].
  cbn [fst snd]. destruct (poll_loop temp_unit0 state' rest). reflexivity.
Qed.

Lemma transition_events_poll_loop (mugs : list Mug) (state : option LiquidState) :
  transition_events (fst (poll_loop temp_unit0 state (map Ok mugs)))
  = transitions state (map liquid_state mugs).
Proof.
  revert state. induction mugs as [|mug mugs IH]; intros state; [reflexivity|].
  cbn [map]. rewrite poll_loop_Ok. unfold transition_events at 1.
  rewrite flat_map_app. fold (transition_events (snd (cycle temp_unit0 state mug))).
  fold (transition_events
          (fst (poll_loop temp_unit0 (fst (cycle temp_unit0 state mug)) (map Ok mugs)))).
  rewrite transition_events_cycle, cycle_state, IH. cbn [transitions].
  destruct (state_neq state (liquid_state mug)); reflexivity.
Qed.

Lemma temp_updates_poll_loop (rs : list (result Mug)) (state : option LiquidState) :
  temp_updates (fst (poll_loop temp_unit0 state rs))
  = map (fun m => Float (fst (temp_str (current_temp_temp (current_temp m))
                                       temp_unit0)))
        (ok_prefix rs).
Proof.
  revert state. induction rs as [|[mug|e] rs IH]; intros state;
    [reflexivity| |reflexivity].
  rewrite poll_loop_Ok. unfold temp_updates at 1. rewrite flat_map_app.
  fold (temp_updates (snd (cycle temp_unit0 state mug))).
  fold (temp_updates
          (fst (poll_loop temp_unit0 (fst (cycle temp_unit0 state mug)) rs))).
  rewrite temp_updates_cycle, IH. reflexivity.
Qed.

Lemma temp_totals_poll_loop (rs : list (result Mug)) (state : option LiquidState) :
  temp_totals (fst (poll_loop temp_unit0 state rs)) = [].
Proof.
  revert state. induction rs as [|[mug|e] rs IH]; intros state;
    [reflexivity| |reflexivity].
  rewrite poll_loop_Ok. unfold temp_totals at 1. rewrite flat_map_app.
  fold (temp_totals (snd (cycle temp_unit0 state mug))).
  fold (temp_totals
          (fst (poll_loop temp_unit0 (fst (cycle temp_unit0 state mug)) rs))).
  rewrite temp_totals_cycle, IH. reflexivity.
Qed.
End Traces.

(** After the first snapshot, main is the loop started with no state and
    with the unit of that snapshot. *)
Lemma main_connected_Ok (mug : Mug) (rest : list (result Mug)) :
  fst (main_connected (Ok mug :: rest))
  = [ ConsolePrint ("Mug: " ++ name_str (name mug));
      ConsoleLogMug mug;
      AddTask temp_progress "[red]Temp"
        (Float (fst (temp_str (target_temp_temp (target_temp mug)) (temp_unit mug))));
      AddTask battery_progress "[green]Battery" (Int 100) ]
    ++ fst (poll_loop (temp_unit mug) None rest).
Proof.
  cbn [main_connected]. destruct (poll_loop (temp_unit mug) None rest).
  destruct (temp_unit mug); reflexivity.
Qed.

(** C4 (as the code has it): over snapshots whose liquid states are
    Heating, Heating, Stable, Stable, Cooling, the loop started with no
    previous state logs exactly three transitions: from no state to
    Heating, from Heating to Stable, from Stable to Cooling.  The same
    three are logged by main when these snapshots follow the one read
    before the loop. *)
Theorem transitions_logged (u : TempUnit) (mug0 : Mug) (mugs : list Mug) :
  map liquid_state mugs = [Heating; Heating; Stable; Stable; Cooling] ->
  transition_events (fst (poll_loop u None (map Ok mugs)))
  = [(None, Heating); (Some Heating, Stable); (Some Stable, Cooling)] /\
  transition_events (fst (main_connected (Ok mug0 :: map Ok mugs)))
  = [(None, Heating); (Some Heating, Stable); (Some Stable, Cooling)].
Proof.
  intros Hstates. split.
  - rewrite transition_events_poll_loop, Hstates. reflexivity.
  - rewrite main_connected_Ok. unfold transition_events at 1.
    rewrite flat_map_app. cbn [flat_map app].
    fold (transition_events
            (fst (poll_loop (temp_unit mug0) None (map Ok mugs)))).
    rewrite transition_events_poll_loop, Hstates. reflexivity.
Qed.

Lemma transitions_logged_witness :
  transition_events
    (fst (poll_loop F None
            (map Ok (map example_mug [Heating; Heating; Stable; Stable; Cooling]))))
  = [(None, Heating); (Some Heating, Stable); (Some Stable, Cooling)].
Proof.
  apply (transitions_logged F (example_mug Empty)
           (map example_mug [Heating; Heating; Stable; Stable; Cooling])).
  reflexivity.
Defined.

(** The first snapshot of the sequence is itself logged as a transition
    from no state, so the loop emits three events, not the two between
    distinct states. *)
Lemma two_transitions_counterexample :
  map liquid_state (map example_mug [Heating; Heating; Stable; Stable; Cooling])
  = [Heating; Heating; Stable; Stable; Cooling] /\
  transition_events
    (fst (poll_loop C None
            (map Ok (map example_mug [Heating; Heating; Stable; Stable; Cooling]))))
  <> [(Some Heating, Stable); (Some Stable, Cooling)] /\
  List.length
    (transition_events
       (fst (poll_loop C None
               (map Ok (map example_mug [Heating; Heating; Stable; Stable; Cooling])))))
  <> 2%nat.
Proof.
  split; [reflexivity|]. split.
  - rewrite transition_events_poll_loop. cbn. discriminate.
  - rewrite transition_events_poll_loop. cbn. discriminate.
Qed.

(** C8: in a run of main whose first [get_mug] returned [mug0], the
    temperature bar is created once, with the target of [mug0] projected
    by the unit of [mug0] as its total, and every later cycle sets it to
    the current temperature of that cycle's snapshot projected by the
    unit of [mug0]: the unit and the target that later snapshots report
    are not looked at. *)
Theorem unit_and_total_from_first_snapshot
    (device : string) (first : Poll) (later : list Poll) (mug0 : Mug) :
  get_mug (client first) (completion first) = Ok mug0 ->
  temp_totals (fst (main (Some device) (first :: later)))
  = [Float (fst (temp_str (target_temp_temp (target_temp mug0)) (temp_unit mug0)))] /\
  temp_updates (fst (main (Some device) (first :: later)))
  = map (fun m => Float (fst (temp_str (current_temp_temp (current_temp m))
                                       (temp_unit mug0))))
        (ok_prefix (map (fun p => get_mug (client p) (completion p)) later)).
Proof.
  intros Hfirst. unfold main. cbn [map]. rewrite Hfirst, main_connected_Ok.
  split.
  - unfold temp_totals at 1. rewrite flat_map_app. cbn [flat_map app].
    fold (temp_totals
            (fst (poll_loop (temp_unit mug0) None
                    (map (fun p => get_mug (client p) (completion p)) later)))).
    rewrite temp_totals_poll_loop. reflexivity.
  - unfold temp_updates at 1. rewrite flat_map_app. cbn [flat_map app].
    fold (temp_updates
            (fst (poll_loop (temp_unit mug0) None
                    (map (fun p => get_mug (client p) (completion p)) later)))).
    apply temp_updates_poll_loop.
Qed.

(** A run whose first snapshot reports unit F and target 55 C / 131 F, and
    whose later snapshots report unit C and target 20 C / 68 F: the bar
    keeps the total 131 and is fed Fahrenheit readings throughout. *)
Lemma unit_and_total_from_first_snapshot_witness :
  temp_totals
    (fst (main (Some "Ember Ceramic Mug"%string)
            [ {| client := example_client x05 x01 [x7c; x15]; completion := [0; 1; 2; 3; 4; 5; 6; 7]%nat |};
              {| client := example_client x05 x00 [xd0; x07]; completion := [7; 6; 5; 4; 3; 2; 1; 0]%nat |};
              {| client := example_client x06 x00 [xd0; x07]; completion := [4; 5; 6; 7; 0; 1; 2; 3]%nat |} ]))
  = [Float 131] /\
  temp_updates
    (fst (main (Some "Ember Ceramic Mug"%string)
            [ {| client := example_client x05 x01 [x7c; x15]; completion := [0; 1; 2; 3; 4; 5; 6; 7]%nat |};
              {| client := example_client x05 x00 [xd0; x07]; completion := [7; 6; 5; 4; 3; 2; 1; 0]%nat |};
              {| client := example_client x06 x00 [xd0; x07]; completion := [4; 5; 6; 7; 0; 1; 2; 3]%nat |} ]))
  = [Float 68; Float 68].
Proof.
  pose proof (unit_and_total_from_first_snapshot "Ember Ceramic Mug"%string
    {| client := example_client x05 x01 [x7c; x15]; completion := [0; 1; 2; 3; 4; 5; 6; 7]%nat |}
    [ {| client := example_client x05 x00 [xd0; x07]; completion := [7; 6; 5; 4; 3; 2; 1; 0]%nat |};
      {| client := example_client x06 x00 [xd0; x07]; completion := [4; 5; 6; 7; 0; 1; 2; 3]%nat |} ]
    (mkMug (mkMugName "Ember") (mkCurrentTemp (mkTemp 20 68))
           (mkTargetTemp (mkTemp 55 131)) F (mkLiquidLevel 30)
           (mkBattery 50 true) Heating (mkMugColor 255 128 0 255))) as Hrun.
  destruct Hrun as [Htotal Hupdates]; [vm_compute; reflexivity|].
  split.
  - rewrite Htotal. reflexivity.
  - rewrite Hupdates. vm_compute. reflexivity.
Defined.


(** * Further properties of the decoders *)

Lemma int_of_byte_inj (x y : byte) : int_of_byte x = int_of_byte y -> x = y.
Proof.
  unfold int_of_byte. intros H. apply N2Z.inj in H.
  pose proof (Byte.of_to_N x) as Hx. rewrite H, Byte.of_to_N in Hx.
  congruence.
Qed.

Lemma getitem_range (data : bytearray) (i : nat) (n : Z) :
  getitem data i = Ok n -> 0 <= n <= 255.
Proof.
  unfold getitem. destruct (nth_error data i) as [x|]; [|discriminate].
  intros [= <-]. pose proof (int_of_byte_range x). lia.
Qed.

Lemma read_uint16_value (b0 b1 : byte) (raw : Z) :
  read_uint16 [b0; b1] = Ok raw ->
  -32768 <= raw < 32768 /\
  raw mod 65536 = int_of_byte b0 + 256 * int_of_byte b1.
Proof.
  pose proof (int_of_byte_range b0). pose proof (int_of_byte_range b1).
  unfold read_uint16. cbv zeta.
  remember (int_of_byte b0 + 256 * int_of_byte b1) as u eqn:Hu.
  destruct (Z.ltb_spec u 32768); intros [= <-];
    (split; [lia | Z.div_mod_to_equations; lia]).
Qed.

(** X1: [read_uint16] succeeds exactly on buffers of two bytes; its value
    is then a signed 16-bit integer, and on any other buffer (the empty one
    included) the only error is the wrong-size error of struct.unpack. *)
Theorem read_uint16_length (data : bytearray) :
  ((exists raw, read_uint16 data = Ok raw) <-> List.length data = 2%nat) /\
  (forall raw, read_uint16 data = Ok raw -> -32768 <= raw < 32768) /\
  (forall e, read_uint16 data = Err e -> e = StructError).
Proof.
  destruct data as [|b0 [|b1 [|b2 rest]]].
  - split; [split; [intros [raw H]; discriminate | discriminate]|].
    split; [discriminate | intros e [= <-]; reflexivity].
  - split; [split; [intros [raw H]; discriminate | discriminate]|].
    split; [discriminate | intros e [= <-]; reflexivity].
  - split; [split; [reflexivity | intros _; eexists; reflexivity]|].
    split; [|discriminate].
    intros raw Hraw. apply read_uint16_value in Hraw. tauto.
  - split; [split; [intros [raw H]; discriminate | discriminate]|].
    split; [discriminate | intros e [= <-]; reflexivity].
Qed.

Lemma read_uint16_length_witness :
  (exists raw, read_uint16 [x00; x80] = Ok raw /\ -32768 <= raw < 32768) /\
  (exists e, read_uint16 [] = Err e /\ e = StructError).
Proof.
  split.
  - exists (-32768). split; [reflexivity|].
    apply (proj1 (proj2 (read_uint16_length [x00; x80]))). reflexivity.
  - exists StructError. split; [reflexivity|].
    apply (proj2 (proj2 (read_uint16_length []))). reflexivity.
Defined.

(** X2: on two bytes [read_uint16] returns [raw] exactly when [raw] is the
    signed 16-bit integer whose two's-complement form has the first byte as
    its low half and the second as its high half; so the value is negative
    exactly when the second byte is 128 or more, and two payloads with the
    same value are the same payload. *)
Theorem read_uint16_twos_complement (b0 b1 : byte) (raw : Z) :
  (read_uint16 [b0; b1] = Ok raw <->
   -32768 <= raw < 32768 /\
   raw mod 65536 = int_of_byte b0 + 256 * int_of_byte b1) /\
  (read_uint16 [b0; b1] = Ok raw -> (raw < 0 <-> 128 <= int_of_byte b1)) /\
  (forall a0 a1, read_uint16 [a0; a1] = read_uint16 [b0; b1] ->
                 a0 = b0 /\ a1 = b1).
Proof.
  pose proof (int_of_byte_range b0) as H0. pose proof (int_of_byte_range b1) as H1.
  split; [split|split].
  - apply read_uint16_value.
  - intros [Hrange Hmod]. apply read_uint16_int16; assumption.
  - intros Hread. apply read_uint16_value in Hread.
    destruct Hread as [Hrange Hmod].
    revert Hmod. Z.div_mod_to_equations. lia.
  - intros a0 a1 Heq.
    destruct (read_uint16 [b0; b1]) as [v|e] eqn:Hb; [|discriminate].
    apply read_uint16_value in Heq, Hb. destruct Heq as [_ Ha], Hb as [_ Hb].
    pose proof (int_of_byte_range a0). pose proof (int_of_byte_range a1).
    split; apply int_of_byte_inj; lia.
Qed.

Lemma read_uint16_twos_complement_witness :
  read_uint16 [xff; xff] = Ok (-1) /\ (-1 < 0 <-> 128 <= int_of_byte xff).
Proof.
  split.
  - apply (proj1 (read_uint16_twos_complement xff xff (-1))).
    split; [lia | reflexivity].
  - apply (proj1 (proj2 (read_uint16_twos_complement xff xff (-1)))).
    reflexivity.
Defined.

Lemma LiquidState_of_int_value (n : Z) (s : LiquidState) :
  LiquidState_of_int n = Ok s <-> n = LiquidState_value s.
Proof.
  split.
  - destruct n as [|p|p]; try discriminate.
    repeat (match goal with q : positive |- _ => destruct q end;
            try discriminate);
      destruct s; cbn; congruence.
  - intros ->. destruct s; reflexivity.
Qed.

Lemma TempUnit_of_int_value (n : Z) (u : TempUnit) :
  TempUnit_of_int n = Ok u <-> n = TempUnit_value u.
Proof.
  split.
  - destruct n as [|p|p]; try discriminate.
    + destruct u; cbn; congruence.
    + destruct p; try discriminate. destruct u; cbn; congruence.
  - intros ->. destruct u; reflexivity.
Qed.

Lemma LiquidState_of_int_errors (n : Z) (e : exn) :
  LiquidState_of_int n = Err e -> e = ValueError /\ ~ 1 <= n <= 6.
Proof.
  intros He. split.
  - revert He. destruct n as [|p|p]; cbn; try congruence.
    repeat (match goal with q : positive |- _ => destruct q end;
            cbn; try congruence).
  - intros Hrange.
    assert (Hcase : n = 1 \/ n = 2 \/ n = 3 \/ n = 4 \/ n = 5 \/ n = 6) by lia.
    destruct Hcase as [-> | [-> | [-> | [-> | [-> | ->]]]]]; discriminate.
Qed.

Lemma TempUnit_of_int_errors (n : Z) (e : exn) :
  TempUnit_of_int n = Err e -> e = ValueError /\ ~ 0 <= n <= 1.
Proof.
  intros He. split.
  - revert He. destruct n as [|p|p]; cbn; try congruence.
    destruct p; cbn; congruence.
  - intros Hrange. assert (Hcase : n = 0 \/ n = 1) by lia.
    destruct Hcase as [->| ->]; discriminate.
Qed.

(** X3: the two enum decoders look the first byte up by value: the result
    is the member whose value is that byte, whatever follows it, and a
    first byte that is the value of no member (outside 1..6 for the liquid
    state, outside 0..1 for the unit) raises ValueError and nothing else. *)
Theorem enum_decoders_by_value (b0 : byte) (rest : bytearray) :
  (forall s, decode_liquid_state (b0 :: rest) = Ok s <->
             int_of_byte b0 = LiquidState_value s) /\
  (forall e, decode_liquid_state (b0 :: rest) = Err e <->
             e = ValueError /\ ~ 1 <= int_of_byte b0 <= 6) /\
  (forall u, decode_temp_unit (b0 :: rest) = Ok u <->
             int_of_byte b0 = TempUnit_value u) /\
  (forall e, decode_temp_unit (b0 :: rest) = Err e <->
             e = ValueError /\ ~ 0 <= int_of_byte b0 <= 1).
Proof.
  change (decode_liquid_state (b0 :: rest))
    with (LiquidState_of_int (int_of_byte b0)).
  change (decode_temp_unit (b0 :: rest))
    with (TempUnit_of_int (int_of_byte b0)).
  split; [apply LiquidState_of_int_value|].
  split.
  { intros e. split; [apply LiquidState_of_int_errors|].
    intros [-> Hout].
    destruct (LiquidState_of_int (int_of_byte b0)) as [s|e] eqn:Hs.
    - apply LiquidState_of_int_value in Hs. exfalso. apply Hout.
      rewrite Hs. destruct s; cbn; lia.
    - apply LiquidState_of_int_errors in Hs. destruct Hs as [-> _].
      reflexivity. }
  split; [apply TempUnit_of_int_value|].
  intros e. split; [apply TempUnit_of_int_errors|].
  intros [-> Hout].
  destruct (TempUnit_of_int (int_of_byte b0)) as [u|e] eqn:Hu.
  - apply TempUnit_of_int_value in Hu. exfalso. apply Hout.
    rewrite Hu. destruct u; cbn; lia.
  - apply TempUnit_of_int_errors in Hu. destruct Hu as [-> _]. reflexivity.
Qed.

(** X4: the integers the decoders put into a LiquidLevel, a Battery or a
    MugColor are the bytes of the payload, so each lies in 0..255; the
    battery percentage is the first byte as it comes, above 100 included,
    and the charging flag is set exactly when the second byte is not 0. *)
Theorem decoded_fields_are_bytes (data : bytearray) :
  (forall v, decode_liquid_level data = Ok v -> 0 <= level v <= 255) /\
  (forall v, decode_battery data = Ok v -> 0 <= percent v <= 255) /\
  (forall v, decode_mug_color data = Ok v ->
             0 <= r v <= 255 /\ 0 <= g v <= 255 /\
             0 <= b v <= 255 /\ 0 <= a v <= 255) /\
  (forall b0 b1 rest,
      data = b0 :: b1 :: rest ->
      exists v, decode_battery data = Ok v /\
                percent v = int_of_byte b0 /\
                (charging v = true <-> int_of_byte b1 <> 0)).
Proof.
  split; [|split; [|split]].
  - intros v. unfold decode_liquid_level.
    destruct (getitem data 0) as [n0|e] eqn:H0; cbn [bind]; [|discriminate].
    intros [= <-]. cbn. eapply getitem_range; eassumption.
  - intros v. unfold decode_battery.
    destruct (getitem data 0) as [n0|e] eqn:H0; cbn [bind]; [|discriminate].
    destruct (getitem data 1) as [n1|e] eqn:H1; cbn [bind]; [|discriminate].
    intros [= <-]. cbn. eapply getitem_range; eassumption.
  - intros v. unfold decode_mug_color.
    destruct (getitem data 0) as [n0|e] eqn:H0; cbn [bind]; [|discriminate].
    destruct (getitem data 1) as [n1|e] eqn:H1; cbn [bind]; [|discriminate].
    destruct (getitem data 2) as [n2|e] eqn:H2; cbn [bind]; [|discriminate].
    destruct (getitem data 3) as [n3|e] eqn:H3; cbn [bind]; [|discriminate].
    intros [= <-]. cbn. repeat split; eapply getitem_range; eassumption.
  - intros b0 b1 rest ->. eexists. split; [reflexivity|]. cbn.
    split; [reflexivity|]. unfold bool_of_int.
    destruct (Z.eqb_spec (int_of_byte b1) 0); cbn; split; congruence.
Qed.

Lemma decoded_fields_are_bytes_witness :
  (exists v, decode_battery [xff; x02] = Ok v /\ percent v = 255 /\
             0 <= percent v <= 255 /\ charging v = true) /\
  (exists v, decode_mug_color [xff; x80; x00; xff] = Ok v /\ 0 <= g v <= 255) /\
  (exists v, decode_liquid_level [x1e] = Ok v /\ 0 <= level v <= 255).
Proof.
  split; [|split].
  - destruct (proj2 (proj2 (proj2 (decoded_fields_are_bytes [xff; x02])))
                xff x02 [] eq_refl) as (v & Hv & Hp & Hc).
    exists v. split; [exact Hv|]. split; [exact Hp|]. split.
    + apply (proj1 (proj2 (decoded_fields_are_bytes [xff; x02])) v Hv).
    + apply Hc. discriminate.
  - eexists. split; [reflexivity|].
    apply (proj1 (proj2 (proj2 (decoded_fields_are_bytes [xff; x80; x00; xff])))
             _ eq_refl).
  - eexists. split; [reflexivity|].
    apply (proj1 (decoded_fields_are_bytes [x1e]) _ eq_refl).
Defined.

Lemma decode_ascii_Ok (data : bytearray) (s : string) :
  decode_ascii data = Ok s <->
  Forall (fun x => int_of_byte x < 128) data /\ s = string_of_list_byte data.
Proof.
  revert s. induction data as [|x data IH]; intros s; cbn [decode_ascii].
  - split; [intros [= <-]; split; [constructor | reflexivity]|].
    intros [_ ->]. reflexivity.
  - destruct (Z.ltb_spec (int_of_byte x) 128) as [Hlt|Hge].
    + destruct (decode_ascii data) as [s'|e]; cbn [bind].
      * destruct (proj1 (IH s') eq_refl) as [Hall ->].
        split; [intros [= <-]; split; [constructor; assumption | reflexivity]|].
        intros [_ ->]. reflexivity.
      * split; [discriminate|]. intros [Hall _].
        apply Forall_inv_tail in Hall.
        pose proof (proj2 (IH (string_of_list_byte data)) (conj Hall eq_refl)).
        discriminate.
    + split; [discriminate|]. intros [Hall _].
      apply Forall_inv in Hall. lia.
Qed.

Lemma decode_ascii_Err (data : bytearray) (e : exn) :
  decode_ascii data = Err e <->
  e = UnicodeDecodeError /\ Exists (fun x => 128 <= int_of_byte x) data.
Proof.
  revert e. induction data as [|x data IH]; intros e; cbn [decode_ascii].
  - split; [discriminate|]. intros [_ Hex]. inversion Hex.
  - destruct (Z.ltb_spec (int_of_byte x) 128) as [Hlt|Hge].
    + destruct (decode_ascii data) as [s'|e']; cbn [bind].
      * split; [discriminate|]. intros [He Hex].
        inversion Hex as [? ? Hx|? ? Htail]; subst; [lia|].
        pose proof (proj2 (IH UnicodeDecodeError) (conj eq_refl Htail)).
        discriminate.
      * destruct (proj1 (IH e') eq_refl) as [-> Hex]. split.
        -- intros [= <-].
           split; [reflexivity | apply Exists_cons_tl; exact Hex].
        -- intros [-> _]. reflexivity.
    + split; [intros [= <-]; split; [reflexivity | apply Exists_cons_hd; exact Hge]|].
      intros [-> _]. reflexivity.
Qed.

Lemma string_of_list_byte_length (data : bytearray) :
  String.length (string_of_list_byte data) = List.length data.
Proof.
  induction data as [|x data IH]; [reflexivity|].
  change (string_of_list_byte (x :: data))
    with (String (ascii_of_byte x) (string_of_list_byte data)).
  cbn [String.length List.length]. rewrite IH. reflexivity.
Qed.

Lemma decode_mug_name_Ok (data : bytearray) (n : MugName) :
  decode_mug_name data = Ok n <->
  Forall (fun x => int_of_byte x < 128) data /\
  n = mkMugName (string_of_list_byte data).
Proof.
  destruct n as [s]. unfold decode_mug_name.
  destruct (decode_ascii data) as [s'|e] eqn:Hd; cbn [bind].
  - apply decode_ascii_Ok in Hd. destruct Hd as [Hall ->].
    split; [intros [= <-]; auto | intros [_ ->]; reflexivity].
  - split; [discriminate|]. intros [Hall _].
    pose proof (proj2 (decode_ascii_Ok data _) (conj Hall eq_refl)).
    congruence.
Qed.

(** X5: [decode_mug_name] succeeds exactly when every byte is below 128;
    the name then has one character per byte (none for an empty payload).
    It fails exactly when some byte is 128 or more, and then the error is
    UnicodeDecodeError. *)
Theorem decode_mug_name_ascii (data : bytearray) :
  (forall n, decode_mug_name data = Ok n <->
             Forall (fun x => int_of_byte x < 128) data /\
             n = mkMugName (string_of_list_byte data)) /\
  (forall e, decode_mug_name data = Err e <->
             e = UnicodeDecodeError /\
             Exists (fun x => 128 <= int_of_byte x) data) /\
  (forall n, decode_mug_name data = Ok n ->
             String.length (name_str n) = List.length data).
Proof.
  split; [intros n; apply decode_mug_name_Ok|]. split.
  - intros e. unfold decode_mug_name.
    destruct (decode_ascii data) as [s'|e'] eqn:Hd; cbn [bind].
    + split; [discriminate|]. intros Herr.
      apply decode_ascii_Err in Herr. congruence.
    + apply decode_ascii_Err in Hd. destruct Hd as [-> Hex].
      split; [intros [= <-]; auto | intros [-> _]; reflexivity].
  - intros n Hn. apply decode_mug_name_Ok in Hn. destruct Hn as [_ ->].
    apply string_of_list_byte_length.
Qed.

Lemma decode_mug_name_ascii_witness :
  String.length (name_str (mkMugName "Ember")) = 5%nat /\
  decode_mug_name [x45; xe9] = Err UnicodeDecodeError.
Proof.
  split.
  - apply (proj2 (proj2 (decode_mug_name_ascii [x45; x6d; x62; x65; x72]))).
    reflexivity.
  - apply (proj1 (proj2 (decode_mug_name_ascii [x45; xe9]))).
    split; [reflexivity|]. apply Exists_cons_tl, Exists_cons_hd.
    vm_compute. discriminate.
Defined.

(** X6: decoding a name and encoding it again gives the payload back, and
    every string whose encoding has no byte above 127 is the name decoded
    from its encoding. *)
Theorem decode_mug_name_roundtrip :
  (forall data n, decode_mug_name data = Ok n ->
                  list_byte_of_string (name_str n) = data) /\
  (forall s, Forall (fun x => int_of_byte x < 128) (list_byte_of_string s) ->
             decode_mug_name (list_byte_of_string s) = Ok (mkMugName s)).
Proof.
  split.
  - intros data n Hn. apply decode_mug_name_Ok in Hn.
    destruct Hn as [_ ->]. cbn [name_str].
    apply list_byte_of_string_of_list_byte.
  - intros s Hall. apply decode_mug_name_Ok. split; [exact Hall|].
    rewrite string_of_list_byte_of_string. reflexivity.
Qed.

Lemma decode_mug_name_roundtrip_witness :
  list_byte_of_string "Ember" = [x45; x6d; x62; x65; x72] /\
  decode_mug_name (list_byte_of_string "Ember") = Ok (mkMugName "Ember").
Proof.
  split.
  - apply (proj1 decode_mug_name_roundtrip [x45; x6d; x62; x65; x72]
                 (mkMugName "Ember")).
    reflexivity.
  - apply (proj2 decode_mug_name_roundtrip "Ember"%string).
    repeat constructor.
Defined.


(** * Further properties of the temperature codec *)

Lemma all_from_spec (P : Z -> bool) (p : positive) (z : Z) :
  all_from p z P = true -> forall x, z <= x < z + Z.pos p -> P x = true.
Proof.
  revert z. induction p as [q IH|q IH|]; intros z; cbn [all_from].
  - intros H x Hx. apply andb_prop in H. destruct H as [H H2].
    apply andb_prop in H. destruct H as [H0 H1].
    destruct (Z.eq_dec x z) as [->|Hne]; [exact H0|].
    destruct (Z_lt_le_dec x (z + 1 + Z.pos q)).
    + apply (IH _ H1). lia.
    + apply (IH _ H2). lia.
  - intros H x Hx. apply andb_prop in H. destruct H as [H1 H2].
    destruct (Z_lt_le_dec x (z + Z.pos q)).
    + apply (IH _ H1). lia.
    + apply (IH _ H2). lia.
  - intros H x Hx. assert (x = z) as -> by lia. exact H.
Qed.

Lemma in_bounds_all : all_from 65536 (-32768) in_bounds = true.
Proof. vm_compute. reflexivity. Qed.

Lemma step_up_all : all_from 65535 (-32768) step_up = true.
Proof. vm_compute. reflexivity. Qed.

Lemma read_temp_celsius_of (b0 b1 : byte) (t : Temp) :
  read_temp [b0; b1] = Ok t ->
  exists raw, -32768 <= raw < 32768 /\
              raw mod 65536 = int_of_byte b0 + 256 * int_of_byte b1 /\
              t = mkTemp (celsius_of raw) (c_to_f (celsius_of raw)).
Proof.
  unfold read_temp.
  destruct (read_uint16 [b0; b1]) as [raw|e] eqn:Hraw; cbn [bind]; [|discriminate].
  intros [= <-]. apply read_uint16_value in Hraw. destruct Hraw as [Hrange Hmod].
  exists raw. split; [exact Hrange | split; [exact Hmod | reflexivity]].
Qed.

(** Strictly increasing steps make a strictly increasing function. *)
Lemma increasing_steps (g : Z -> Z) (lo hi : Z) :
  (forall x, lo <= x < hi -> g x < g (x + 1)) ->
  forall x y, lo <= x -> x < y -> y <= hi -> g x < g y.
Proof.
  intros Hstep x y Hlo Hxy Hhi.
  assert (Hnat : forall n : nat, x + 1 + Z.of_nat n <= hi ->
                                 g x < g (x + 1 + Z.of_nat n)).
  { induction n as [|n IH]; intros Hn.
    - rewrite Z.add_0_r. apply Hstep. lia.
    - replace (x + 1 + Z.of_nat (S n)) with (x + 1 + Z.of_nat n + 1) by lia.
      eapply Z.lt_trans; [apply IH; lia | apply Hstep; lia]. }
  replace y with (x + 1 + Z.of_nat (Z.to_nat (y - x - 1))) by lia.
  apply Hnat. lia.
Qed.

Lemma celsius_of_scaled_increasing (x y : Z) :
  -32768 <= x -> x < y -> y < 32768 ->
  scaled (celsius_of x) < scaled (celsius_of y) /\
  scaled (c_to_f (celsius_of x)) < scaled (c_to_f (celsius_of y)).
Proof.
  intros Hlo Hxy Hhi.
  assert (Hstep : forall z, -32768 <= z < 32767 -> step_up z = true).
  { intros z Hz. apply (all_from_spec step_up 65535 (-32768) step_up_all). lia. }
  split.
  - apply (increasing_steps (fun z => scaled (celsius_of z)) (-32768) 32767);
      [|lia|lia|lia].
    intros z Hz. apply Hstep in Hz. unfold step_up in Hz.
    apply andb_prop in Hz. destruct Hz as [Hz _].
    apply andb_prop in Hz. destruct Hz as [Hz _].
    apply andb_prop in Hz. destruct Hz as [Hz _].
    apply Z.ltb_lt. exact Hz.
  - apply (increasing_steps (fun z => scaled (c_to_f (celsius_of z)))
             (-32768) 32767); [|lia|lia|lia].
    intros z Hz. apply Hstep in Hz. unfold step_up in Hz.
    apply andb_prop in Hz. destruct Hz as [Hz _].
    apply andb_prop in Hz. destruct Hz as [Hz _].
    apply andb_prop in Hz. destruct Hz as [_ Hz].
    apply Z.ltb_lt. exact Hz.
Qed.

(** X7: every temperature [read_temp] returns is a finite number within
    the span of a signed 16-bit count of hundredths of a degree: its c
    lies between -328 and 328 and its f between -559 and 623 (so neither
    is a NaN or an infinity). *)
Theorem read_temp_bounds (data : bytearray) (t : Temp) :
  read_temp data = Ok t ->
  PrimFloat.leb (-328) (c t) = true /\ PrimFloat.leb (c t) 328 = true /\
  PrimFloat.leb (-559) (f t) = true /\ PrimFloat.leb (f t) 623 = true.
Proof.
  intros Hread.
  destruct data as [|b0 [|b1 [|b2 rest]]]; try discriminate.
  apply read_temp_celsius_of in Hread.
  destruct Hread as (raw & Hrange & _ & ->). cbn [c f].
  assert (Hb : in_bounds raw = true).
  { apply (all_from_spec in_bounds 65536 (-32768) in_bounds_all). lia. }
  unfold in_bounds in Hb. cbv zeta in Hb.
  apply andb_prop in Hb. destruct Hb as [Hb H4].
  apply andb_prop in Hb. destruct Hb as [Hb H3].
  apply andb_prop in Hb. destruct Hb as [H1 H2].
  auto.
Qed.

Lemma read_temp_bounds_witness :
  PrimFloat.leb (-328) (celsius_of (-32768)) = true /\
  PrimFloat.leb (c_to_f (celsius_of (-32768))) 623 = true.
Proof.
  destruct (read_temp_bounds [x00; x80]
              (mkTemp (celsius_of (-32768)) (c_to_f (celsius_of (-32768))))
              eq_refl) as (H1 & _ & _ & H4).
  split; [exact H1 | exact H4].
Defined.

(** X8: [read_temp] loses nothing: two payloads that decode to the same
    Celsius value, or to the same Fahrenheit value, are the same payload;
    and one more hundredth in the raw reading gives a strictly greater c
    and a strictly greater f. *)
Theorem read_temp_injective (a0 a1 b0 b1 : byte) (ta tb : Temp) :
  read_temp [a0; a1] = Ok ta ->
  read_temp [b0; b1] = Ok tb ->
  (c ta = c tb \/ f ta = f tb -> a0 = b0 /\ a1 = b1) /\
  (forall raw, read_uint16 [a0; a1] = Ok raw ->
               read_uint16 [b0; b1] = Ok (raw + 1) ->
               PrimFloat.ltb (c ta) (c tb) = true /\
               PrimFloat.ltb (f ta) (f tb) = true).
Proof.
  intros Ha Hb. split.
  - apply read_temp_celsius_of in Ha, Hb.
    destruct Ha as (ra & Hra & Hma & ->), Hb as (rb & Hrb & Hmb & ->).
    cbn [c f]. intros Heq.
    assert (Hr : ra = rb).
    { destruct (Z.lt_trichotomy ra rb) as [Hlt|[Heq'|Hgt]]; [|exact Heq'|].
      - destruct (celsius_of_scaled_increasing ra rb) as [Hc Hf]; try lia.
        destruct Heq as [Heq|Heq]; rewrite Heq in *; lia.
      - destruct (celsius_of_scaled_increasing rb ra) as [Hc Hf]; try lia.
        destruct Heq as [Heq|Heq]; rewrite Heq in *; lia. }
    subst rb.
    pose proof (int_of_byte_range a0). pose proof (int_of_byte_range a1).
    pose proof (int_of_byte_range b0). pose proof (int_of_byte_range b1).
    split; apply int_of_byte_inj; lia.
  - intros raw Hra Hrb.
    unfold read_temp in Ha, Hb. rewrite Hra in Ha. rewrite Hrb in Hb.
    cbn [bind] in Ha, Hb. injection Ha as <-. injection Hb as <-. cbn [c f].
    apply read_uint16_value in Hra, Hrb.
    assert (Hstep : step_up raw = true).
    { apply (all_from_spec step_up 65535 (-32768) step_up_all). lia. }
    unfold step_up in Hstep.
    apply andb_prop in Hstep. destruct Hstep as [Hstep H4].
    apply andb_prop in Hstep. destruct Hstep as [Hstep H3].
    split; assumption.
Qed.

Lemma read_temp_injective_witness :
  (xd0 = xd0 /\ x07 = x07) /\
  PrimFloat.ltb (celsius_of 2000) (celsius_of 2001) = true.
Proof.
  split.
  - apply (proj1 (read_temp_injective xd0 x07 xd0 x07
                    (mkTemp (celsius_of 2000) (c_to_f (celsius_of 2000)))
                    (mkTemp (celsius_of 2000) (c_to_f (celsius_of 2000)))
                    eq_refl eq_refl)).
    left. reflexivity.
  - apply (proj2 (read_temp_injective xd0 x07 xd1 x07
                    (mkTemp (celsius_of 2000) (c_to_f (celsius_of 2000)))
                    (mkTemp (celsius_of 2001) (c_to_f (celsius_of 2001)))
                    eq_refl eq_refl)
                 2000 eq_refl eq_refl).
Defined.


(** * Further properties of the registry and of the assembly *)

Lemma dict_get_Err {V} (d : list (string * V)) (k : string) (e : exn) :
  dict_get d k = Err e -> e = KeyError /\ ~ In k (map fst d).
Proof.
  induction d as [|[k' v'] d IH]; cbn.
  - intros [= <-]. split; [reflexivity | tauto].
  - destruct (String.eqb_spec k k') as [->|Hne]; [discriminate|].
    intros He. destruct (IH He) as [-> Hnot].
    split; [reflexivity|]. intros [H|H]; [congruence | contradiction].
Qed.

Lemma get_uuid_known (k : string) :
  In k mug_keys ->
  exists u decoder, dict_get CHARACTERISTICS k = Ok (u, decoder) /\
                    get_uuid k = Ok u /\ In u registered_uuids.
Proof.
  intros Hk. cbn in Hk.
  repeat (destruct Hk as [<-|Hk];
          [eexists; eexists; split; [reflexivity|];
           split; [reflexivity | cbn; tauto]|]).
  contradiction.
Qed.

Lemma get_uuid_unknown (k : string) :
  ~ In k mug_keys -> dict_get CHARACTERISTICS k = Err KeyError.
Proof.
  intros Hk. destruct (dict_get CHARACTERISTICS k) as [v|e] eqn:Hd.
  - exfalso. apply Hk. change mug_keys with (map fst CHARACTERISTICS).
    apply dict_get_In. eauto.
  - apply dict_get_Err in Hd. destruct Hd as [-> _]. reflexivity.
Qed.

(** X9: [get_uuid] returns an identifier exactly for the eight names of
    the registry and raises KeyError for every other string; distinct
    names have distinct identifiers. *)
Theorem get_uuid_registry (k : string) :
  (In k mug_keys -> exists u, get_uuid k = Ok u /\ In u registered_uuids) /\
  (~ In k mug_keys -> get_uuid k = Err KeyError) /\
  (forall k' u, get_uuid k = Ok u -> get_uuid k' = Ok u -> k = k').
Proof.
  split; [|split].
  - intros Hk. destruct (get_uuid_known k Hk) as (u & _ & _ & Hu & Hin). eauto.
  - intros Hk. unfold get_uuid. rewrite (get_uuid_unknown k Hk). reflexivity.
  - intros k' u Hu Hu'.
    assert (Hk : In k mug_keys).
    { change mug_keys with (map fst CHARACTERISTICS). apply dict_get_In.
      unfold get_uuid in Hu. destruct (dict_get CHARACTERISTICS k); [eauto|discriminate]. }
    assert (Hk' : In k' mug_keys).
    { change mug_keys with (map fst CHARACTERISTICS). apply dict_get_In.
      unfold get_uuid in Hu'. destruct (dict_get CHARACTERISTICS k'); [eauto|discriminate]. }
    cbn in Hk, Hk'.
    repeat (destruct Hk as [<-|Hk]; [vm_compute in Hu; injection Hu as <-|]);
      try contradiction;
      repeat (destruct Hk' as [<-|Hk'];
              [vm_compute in Hu'; first [reflexivity | discriminate]|]);
      contradiction.
Qed.

Lemma get_uuid_registry_witness :
  (exists u, get_uuid "battery" = Ok u /\ In u registered_uuids) /\
  get_uuid "fc540007-236c-4c94-8fa9-944a3e5353fa" = Err KeyError /\
  "battery"%string = "battery"%string.
Proof.
  split; [|split].
  - apply (proj1 (get_uuid_registry "battery")). cbn. tauto.
  - apply (proj1 (proj2 (get_uuid_registry "fc540007-236c-4c94-8fa9-944a3e5353fa"))).
    cbn. intuition discriminate.
  - apply (proj2 (proj2 (get_uuid_registry "battery")) "battery"%string
             "fc540007-236c-4c94-8fa9-944a3e5353fa"%string);
      reflexivity.
Defined.

(** X10: [read_char] raises KeyError for a name the registry does not
    have, whatever the client; for a name of the registry it asks the
    client for the identifier [get_uuid] gives and for nothing else, and a
    failed read comes out as it is, no decoder being run. *)
Theorem read_char_errors (client : BleakClient) (k : string) :
  (~ In k mug_keys -> read_char client k = Err KeyError) /\
  (forall u e, get_uuid k = Ok u -> read_gatt_char client u = Err e ->
               read_char client k = Err e) /\
  (forall u other, get_uuid k = Ok u ->
                   read_gatt_char other u = read_gatt_char client u ->
                   read_char other k = read_char client k).
Proof.
  split; [|split].
  - intros Hk. unfold read_char. rewrite (get_uuid_unknown k Hk). reflexivity.
  - intros u e Hu He. unfold read_char. unfold get_uuid in Hu.
    destruct (dict_get CHARACTERISTICS k) as [[u' decoder]|e']; [|discriminate].
    cbn in Hu. injection Hu as ->. cbn [bind]. rewrite He. reflexivity.
  - intros u other Hu Hsame. unfold read_char. unfold get_uuid in Hu.
    destruct (dict_get CHARACTERISTICS k) as [[u' decoder]|e']; [|discriminate].
    cbn in Hu. injection Hu as ->. cbn [bind]. rewrite Hsame. reflexivity.
Qed.

Lemma read_char_errors_witness :
  read_char (example_client x06 x00 [x7c; x15]) "mug-colour" = Err KeyError /\
  read_char {| read_gatt_char := fun _ => Err BleakError |} "battery"
  = Err BleakError /\
  read_char (answering (fun _ => [x32; x01])) "battery"
  = read_char (example_client x06 x00 [x7c; x15]) "battery".
Proof.
  split; [|split].
  - apply (proj1 (read_char_errors (example_client x06 x00 [x7c; x15])
                    "mug-colour")).
    cbn. intuition discriminate.
  - apply (proj1 (proj2 (read_char_errors
                           {| read_gatt_char := fun _ => Err BleakError |}
                           "battery"))
             "fc540007-236c-4c94-8fa9-944a3e5353fa"%string);
      reflexivity.
  - apply (proj2 (proj2 (read_char_errors (example_client x06 x00 [x7c; x15])
                           "battery"))
             "fc540007-236c-4c94-8fa9-944a3e5353fa"%string);
      reflexivity.
Defined.

(** X11: [get_mug] returns a Mug exactly when each of the eight reads
    returned: the objects the registry's decoders give always fit the
    constructor, so no error arises after the gather. *)
Theorem get_mug_succeeds_iff (client : BleakClient) (completion : list nat) :
  (exists m, get_mug client completion = Ok m) <->
  (forall k, In k mug_keys -> exists v, read_char client k = Ok v).
Proof.
  split.
  - intros [m Hm] k Hk. apply get_mug_Ok in Hm.
    assert (Hin : In (read_char client k) (map Ok (attrs_of_Mug m))).
    { rewrite <- Hm. apply in_map. exact Hk. }
    apply in_map_iff in Hin. destruct Hin as (v & Hv & _). eauto.
  - intros Hall.
    assert (Htasks : exists attrs,
               map (read_char client) mug_keys = map Ok attrs).
    { clear completion. induction mug_keys as [|k ks IH].
      - exists []. reflexivity.
      - destruct (Hall k (or_introl eq_refl)) as [v Hv].
        destruct IH as [attrs Hattrs].
        + intros k' Hk'. apply Hall. right. exact Hk'.
        + exists (v :: attrs). cbn [map]. rewrite Hv, Hattrs. reflexivity. }
    destruct Htasks as [attrs Hattrs].
    destruct (Mug_of_attrs_registry client attrs Hattrs) as [m Hm].
    exists m. unfold get_mug.
    rewrite (proj2 (gather_Ok completion _ attrs) Hattrs). exact Hm.
Qed.

Lemma first_raised_first {A} (before after : list nat) (i : nat)
    (tasks : list (result A)) (e : exn) :
  nth_error tasks i = Some (Err e) ->
  (forall j e', In j before -> nth_error tasks j <> Some (Err e')) ->
  first_raised (before ++ i :: after) tasks = Some e.
Proof.
  intros Hi. induction before as [|j before IH]; intros Hbefore; cbn.
  - rewrite Hi. reflexivity.
  - destruct (nth_error tasks j) as [[x|e']|] eqn:Hj.
    + apply IH. intros j' e'' Hin. apply Hbefore. right. exact Hin.
    + exfalso. apply (Hbefore j e'); [left; reflexivity | exact Hj].
    + apply IH. intros j' e'' Hin. apply Hbefore. right. exact Hin.
Qed.

(** X12: the error [get_mug] raises is that of the read that fails first
    in completion order: when the read at position [i] fails with [e] and
    no read that finished before it failed, [get_mug] raises [e], whatever
    the reads after it do.  With two failing reads the error therefore
    follows the order in which they finish. *)
Theorem get_mug_first_failure
    (client : BleakClient) (before after : list nat) (i : nat) (e : exn) :
  nth_error (map (read_char client) mug_keys) i = Some (Err e) ->
  (forall j e', In j before ->
                nth_error (map (read_char client) mug_keys) j <> Some (Err e')) ->
  get_mug client (before ++ i :: after) = Err e.
Proof.
  intros Hi Hbefore. unfold get_mug, gather.
  rewrite (first_raised_first before after i _ e Hi Hbefore). reflexivity.
Qed.

Lemma get_mug_first_failure_witness :
  get_mug (example_client x06 x02 [x00]) ([0; 1] ++ 3 :: [2; 4; 5; 6; 7])%nat
  = Err ValueError /\
  get_mug (example_client x06 x02 [x00]) ([0; 1] ++ 2 :: [3; 4; 5; 6; 7])%nat
  = Err StructError.
Proof.
  split.
  - apply (get_mug_first_failure (example_client x06 x02 [x00])
             [0; 1]%nat [2; 4; 5; 6; 7]%nat 3 ValueError).
    + vm_compute. reflexivity.
    + intros j e' Hj. cbn in Hj.
      destruct Hj as [<-|[<-|[]]]; vm_compute; discriminate.
  - apply (get_mug_first_failure (example_client x06 x02 [x00])
             [0; 1]%nat [3; 4; 5; 6; 7]%nat 2 StructError).
    + vm_compute. reflexivity.
    + intros j e' Hj. cbn in Hj.
      destruct Hj as [<-|[<-|[]]]; vm_compute; discriminate.
Defined.

(** X13: [get_mug] looks at the client only through the eight identifiers
    of the registry: two clients that answer alike on these give the same
    result, error included, under the same completion order. *)
Theorem get_mug_reads_registered_only
    (c1 c2 : BleakClient) (completion : list nat) :
  (forall u, In u registered_uuids -> read_gatt_char c1 u = read_gatt_char c2 u) ->
  get_mug c1 completion = get_mug c2 completion.
Proof.
  intros Hsame. unfold get_mug. rewrite !get_mug_tasks.
  rewrite !Hsame by (cbn; tauto). reflexivity.
Qed.

Lemma get_mug_reads_registered_only_witness :
  get_mug (answering (fun uuid =>
                        match dict_get (example_responses x06 x00 [x7c; x15]) uuid with
                        | Ok data => data
                        | Err _ => [x2a]
                        end))
          [7; 6; 5; 4; 3; 2; 1; 0]%nat
  = get_mug (example_client x06 x00 [x7c; x15]) [7; 6; 5; 4; 3; 2; 1; 0]%nat.
Proof.
  apply get_mug_reads_registered_only.
  intros u Hu. cbn in Hu.
  repeat (destruct Hu as [<-|Hu]; [reflexivity|]). contradiction.
Defined.


(** * Further properties of the poll loop *)

Lemma poll_loop_snd (u : TempUnit) (rs : list (result Mug))
    (state : option LiquidState) :
  snd (poll_loop u state rs)
  = match first_error rs with
    | Some e => Raised e
    | None => Polling
    end.
Proof.
  revert state. induction rs as [|[mug|e] rs IH]; intros state;
    [reflexivity| |reflexivity].
  cbn [poll_loop first_error].
  destruct (cycle u state mug) as [state' events].
  specialize (IH state'). destruct (poll_loop u state' rs). exact IH.
Qed.

Lemma poll_loop_failure (u : TempUnit) (mugs : list Mug) (e : exn)
    (rest : list (result Mug)) (state : option LiquidState) :
  poll_loop u state (map Ok mugs ++ Err e :: rest)
  = (fst (poll_loop u state (map Ok mugs)), Raised e).
Proof.
  revert state. induction mugs as [|mug mugs IH]; intros state; [reflexivity|].
  cbn [map app poll_loop].
  destruct (cycle u state mug) as [state' events].
  rewrite IH. destruct (poll_loop u state' (map Ok mugs)). reflexivity.
Qed.

Lemma map_Ok_ok_prefix {A} (xs : list A) (e : exn) (rest : list (result A)) :
  ok_prefix (map Ok xs ++ Err e :: rest) = xs /\ ok_prefix (map Ok xs) = xs.
Proof.
  induction xs as [|x xs [IH1 IH2]]; [split; reflexivity|].
  cbn. rewrite IH1, IH2. split; reflexivity.
Qed.

(** The trace of the loop is that of its successful cycles. *)
Lemma poll_loop_ok_prefix (u : TempUnit) (rs : list (result Mug))
    (state : option LiquidState) :
  fst (poll_loop u state rs) = fst (poll_loop u state (map Ok (ok_prefix rs))).
Proof.
  revert state. induction rs as [|[mug|e] rs IH]; intros state;
    [reflexivity| |reflexivity].
  cbn [ok_prefix map]. rewrite !poll_loop_Ok, IH. reflexivity.
Qed.

(** An observer that reads the same thing off a cycle whatever the state
    reads the loop cycle by cycle. *)
Lemma observe_poll_loop {X} (g : Event -> list X) (h : Mug -> list X)
    (u : TempUnit) :
  (forall state mug, flat_map g (snd (cycle u state mug)) = h mug) ->
  forall rs state,
    flat_map g (fst (poll_loop u state rs)) = flat_map h (ok_prefix rs).
Proof.
  intros Hcycle. induction rs as [|[mug|e] rs IH]; intros state;
    [reflexivity| |reflexivity].
  rewrite poll_loop_Ok, flat_map_app, Hcycle, IH. reflexivity.
Qed.

Lemma cycle_observed (u : TempUnit) (state : option LiquidState) (mug : Mug) :
  battery_updates (snd (cycle u state mug)) = [Int (percent (battery mug))] /\
  battery_totals (snd (cycle u state mug)) = [] /\
  mug_logs (snd (cycle u state mug))
  = (if unnamed_state (liquid_state mug) then [mug] else []) /\
  sleeps (snd (cycle u state mug)) = [1].
Proof.
  unfold cycle, match_liquid_state, unnamed_state.
  destruct u, (state_neq state (liquid_state mug)), (liquid_state mug);
    repeat split; reflexivity.
Qed.

Lemma flat_map_singleton {X Y} (k : X -> Y) (xs : list X) :
  flat_map (fun x => [k x]) xs = map k xs.
Proof. induction xs as [|x xs IH]; cbn; [|rewrite IH]; reflexivity. Qed.

Lemma flat_map_filter {X} (p : X -> bool) (xs : list X) :
  flat_map (fun x => if p x then [x] else []) xs = filter p xs.
Proof.
  induction xs as [|x xs IH]; cbn; [reflexivity|].
  rewrite IH. destruct (p x); reflexivity.
Qed.

(** X14: how a run of main ends: without a device it logs "not found" and
    exits with status 1 before any read; with a device it never exits by
    itself: it raises the error of the first [get_mug] that fails, and
    until then it is still polling. *)
Theorem main_outcome (device : option string) (polls : list Poll) :
  (device = None -> main device polls = ([ConsoleLog "not found"], Exit 1)) /\
  (device <> None ->
   snd (main device polls)
   = match first_error (map (fun p => get_mug (client p) (completion p)) polls) with
     | Some e => Raised e
     | None => Polling
     end).
Proof.
  split.
  - intros ->. reflexivity.
  - destruct device as [d|]; [intros _|congruence].
    unfold main, main_connected.
    destruct (map (fun p => get_mug (client p) (completion p)) polls)
      as [|[mug|e] rest]; [reflexivity| |reflexivity].
    cbn [first_error]. rewrite <- (poll_loop_snd (temp_unit mug) rest None).
    destruct (poll_loop (temp_unit mug) None rest). reflexivity.
Qed.

Lemma main_outcome_witness :
  main None [ {| client := example_client x06 x00 [x7c; x15];
                 completion := [0; 1; 2; 3; 4; 5; 6; 7]%nat |} ]
  = ([ConsoleLog "not found"], Exit 1) /\
  snd (main (Some "Ember Ceramic Mug"%string)
         [ {| client := example_client x06 x00 [x7c; x15];
              completion := [0; 1; 2; 3; 4; 5; 6; 7]%nat |};
           {| client := example_client x07 x00 [x7c; x15];
              completion := [0; 1; 2; 3; 4; 5; 6; 7]%nat |};
           {| client := example_client x06 x00 [x00];
              completion := [0; 1; 2; 3; 4; 5; 6; 7]%nat |} ])
  = Raised ValueError.
Proof.
  split.
  - apply (proj1 (main_outcome None _)). reflexivity.
  - rewrite (proj2 (main_outcome (Some "Ember Ceramic Mug"%string) _));
      [vm_compute; reflexivity | discriminate].
Defined.

(** X15: a [get_mug] that fails ends the run there: the trace is that of
    the snapshots before it, the failing cycle adds nothing to it (no
    half-done update), and whatever the link would have answered later
    plays no part. *)
Theorem failure_stops_the_run
    (mugs : list Mug) (e : exn) (rest : list (result Mug)) :
  main_connected (map Ok mugs ++ Err e :: rest)
  = (fst (main_connected (map Ok mugs)), Raised e).
Proof.
  destruct mugs as [|mug0 mugs]; [reflexivity|].
  cbn [map app main_connected].
  rewrite poll_loop_failure.
  destruct (poll_loop (temp_unit mug0) None (map Ok mugs)). reflexivity.
Qed.

(** X16: the battery bar is created once with total 100, and each
    completed cycle sets it to the percentage of that cycle's snapshot;
    the snapshot read before the loop is not reported on the bar. *)
Theorem battery_bar (mug0 : Mug) (rest : list (result Mug)) :
  battery_totals (fst (main_connected (Ok mug0 :: rest))) = [Int 100] /\
  battery_updates (fst (main_connected (Ok mug0 :: rest)))
  = map (fun m => Int (percent (battery m))) (ok_prefix rest).
Proof.
  rewrite main_connected_Ok. unfold battery_totals, battery_updates.
  rewrite !flat_map_app. cbn [flat_map app]. split.
  - rewrite (observe_poll_loop _ (fun _ => []) (temp_unit mug0)).
    + induction (ok_prefix rest) as [|m ms IH]; [reflexivity | exact IH].
    + intros state mug. apply (cycle_observed (temp_unit mug0) state mug).
  - rewrite (observe_poll_loop _ (fun m => [Int (percent (battery m))])
               (temp_unit mug0)).
    + apply flat_map_singleton.
    + intros state mug. apply (cycle_observed (temp_unit mug0) state mug).
Qed.

(** X17: the snapshot read before the loop is always written to the log;
    a snapshot read in the loop is written to the log exactly when its
    liquid state is Filling or Unknown, the two members the match
    statement does not name. *)
Theorem mug_logged_for_unnamed_states (mug0 : Mug) (rest : list (result Mug)) :
  mug_logs (fst (main_connected (Ok mug0 :: rest)))
  = mug0 :: filter (fun m => unnamed_state (liquid_state m)) (ok_prefix rest).
Proof.
  rewrite main_connected_Ok. unfold mug_logs.
  rewrite flat_map_app. cbn [flat_map app]. f_equal.
  rewrite (observe_poll_loop _
             (fun m => if unnamed_state (liquid_state m) then [m] else [])
             (temp_unit mug0)).
  - apply (flat_map_filter (fun m => unnamed_state (liquid_state m))).
  - intros state mug. apply (cycle_observed (temp_unit mug0) state mug).
Qed.

(** X18: main pauses once per completed cycle, for one second each time,
    and not before the loop. *)
Theorem one_sleep_per_cycle (mug0 : Mug) (rest : list (result Mug)) :
  sleeps (fst (main_connected (Ok mug0 :: rest)))
  = repeat 1 (List.length (ok_prefix rest)).
Proof.
  rewrite main_connected_Ok. unfold sleeps.
  rewrite flat_map_app. cbn [flat_map app].
  rewrite (observe_poll_loop _ (fun _ => [1]) (temp_unit mug0)).
  - induction (ok_prefix rest) as [|m ms IH]; cbn; [|rewrite IH]; reflexivity.
  - intros state mug. apply (cycle_observed (temp_unit mug0) state mug).
Qed.


(** * Further properties of the state tracker *)

Lemma LiquidState_eqb_eq (s t : LiquidState) :
  LiquidState_eqb s t = true <-> s = t.
Proof. destruct s, t; cbn; split; congruence. Qed.

Lemma state_neq_false (state : option LiquidState) (s : LiquidState) :
  state_neq state s = false <-> state = Some s.
Proof.
  destruct state as [p|]; cbn; [|split; discriminate].
  rewrite negb_false_iff, LiquidState_eqb_eq. split; congruence.
Qed.

Lemma transitions_changes (seen : list LiquidState) (state : option LiquidState) :
  map snd (transitions state seen) = changes state seen.
Proof.
  revert state. induction seen as [|s seen IH]; intros state; [reflexivity|].
  cbn [transitions changes]. destruct (state_neq state s); cbn [map snd];
    rewrite IH; reflexivity.
Qed.

Lemma transitions_chain (seen : list LiquidState) (state : option LiquidState) :
  map fst (transitions state seen)
  = firstn (List.length (transitions state seen))
           (state :: map Some (map snd (transitions state seen))).
Proof.
  revert state. induction seen as [|s seen IH]; intros state; [reflexivity|].
  cbn [transitions]. destruct (state_neq state s); [|apply IH].
  cbn [map fst snd List.length firstn]. f_equal. apply IH.
Qed.

Lemma transitions_differ (seen : list LiquidState) (state : option LiquidState)
    (old : option LiquidState) (new : LiquidState) :
  In (old, new) (transitions state seen) -> state_neq old new = true.
Proof.
  revert state. induction seen as [|s seen IH]; intros state; [contradiction|].
  cbn [transitions]. destruct (state_neq state s) eqn:Hneq; [|apply IH].
  intros [[= <- <-]|Hin]; [exact Hneq | eapply IH; eassumption].
Qed.

Lemma changes_last (seen : list LiquidState) (s d : LiquidState) :
  last (s :: changes (Some s) seen) d = last (s :: seen) d.
Proof.
  revert s. induction seen as [|t seen IH]; intros s; [reflexivity|].
  cbn [changes]. destruct (state_neq (Some s) t) eqn:Hneq.
  - change (last (s :: t :: changes (Some t) seen) d)
      with (last (t :: changes (Some t) seen) d).
    rewrite IH. reflexivity.
  - apply state_neq_false in Hneq. injection Hneq as <-.
    rewrite IH. reflexivity.
Qed.

(** The transitions main logs are those of the loop over the snapshots
    of its completed cycles, started with no state. *)
Lemma main_connected_transitions (mug0 : Mug) (rest : list (result Mug)) :
  transition_events (fst (main_connected (Ok mug0 :: rest)))
  = transitions None (map liquid_state (ok_prefix rest)).
Proof.
  rewrite main_connected_Ok. unfold transition_events at 1.
  rewrite flat_map_app. cbn [flat_map app].
  fold (transition_events (fst (poll_loop (temp_unit mug0) None rest))).
  rewrite poll_loop_ok_prefix. apply transition_events_poll_loop.
Qed.

(** X19: the transitions main logs form a chain: the new states logged
    are the liquid states of the loop's snapshots with every repeat of the
    one before left out; the first transition starts from no state and
    each later one from the state the previous one ended in; and no
    transition is ever logged from a state to itself. *)
Theorem transitions_form_a_chain (mug0 : Mug) (rest : list (result Mug)) :
  map snd (transition_events (fst (main_connected (Ok mug0 :: rest))))
  = changes None (map liquid_state (ok_prefix rest)) /\
  map fst (transition_events (fst (main_connected (Ok mug0 :: rest))))
  = firstn (List.length (transition_events (fst (main_connected (Ok mug0 :: rest)))))
           (None :: map Some
                      (map snd (transition_events
                                  (fst (main_connected (Ok mug0 :: rest)))))) /\
  (forall s, ~ In (Some s, s)
               (transition_events (fst (main_connected (Ok mug0 :: rest))))).
Proof.
  rewrite main_connected_transitions. split; [|split].
  - apply transitions_changes.
  - apply transitions_chain.
  - intros s Hin. apply transitions_differ in Hin.
    assert (Hfalse : state_neq (Some s) s = false)
      by (apply state_neq_false; reflexivity).
    congruence.
Qed.

(** X20: the state kept before the loop is not taken from the snapshot
    read before the loop: whatever that snapshot reported, the first
    completed cycle logs a transition from no state to its own liquid
    state; and the last transition logged always ends in the liquid state
    of the latest snapshot. *)
Theorem transitions_first_and_last
    (mug0 mug1 : Mug) (mugs : list Mug) (d : LiquidState) :
  (exists later,
      transition_events (fst (main_connected (Ok mug0 :: Ok mug1 :: map Ok mugs)))
      = (None, liquid_state mug1) :: later) /\
  last (map snd (transition_events
                   (fst (main_connected (Ok mug0 :: Ok mug1 :: map Ok mugs))))) d
  = last (map liquid_state (mug1 :: mugs)) d.
Proof.
  rewrite main_connected_transitions.
  change (Ok mug1 :: map Ok mugs) with (map (@Ok Mug) (mug1 :: mugs)).
  rewrite (proj2 (map_Ok_ok_prefix (mug1 :: mugs) TypeError [])).
  split.
  - cbn [map transitions state_neq]. eexists. reflexivity.
  - rewrite transitions_changes. cbn [map changes state_neq].
    apply changes_last.
Qed.
